(** * The embedded console of the dash playground (public/console.js)

    A shallow embedding of the value inspector ([escapeHtml], [wrapInSpan],
    [trimString], [inspect], [recursiveInspect]), of the argument formatter
    ([_formatString]) and of the timer registry ([time], [timeEnd]), together
    with the properties the specification states about them.

    JavaScript values live in a heap of objects addressed by location, so that
    identity (the key of the visited [WeakSet]) and cycles are those of the
    program.  Everything user code can observe or influence while a value is
    displayed (property reads, getters, proxy traps, string conversion,
    iteration of a collection) is an [Outcome]: it returns a value or throws.
    The inspector runs in a small state-and-exception monad whose state is the
    visited set; a ghost trace records every getter the engine invokes and
    every structural walk it enters. *)

From Stdlib Require Import ZArith String Ascii List Lia Bool DecimalString.
From stdpp Require Import base gmap strings list.

Open Scope string_scope.

(** ** Strings

    A string is a sequence of code units; one [ascii] stands for one unit.
    The glyphs of the engine are written in UTF-8. *)

Definition dquote : string := String "034"%char "".
Definition newline : ascii := "010"%char.

Fixpoint join (sep : string) (parts : list string) : string :=
  match parts with
  | [] => ""
  | [p] => p
  | p :: rest => p +:+ sep +:+ join sep rest
  end.

(** [startsWith prefix s]: [s] begins with [prefix]. *)
Fixpoint startsWith (prefix s : string) : bool :=
  match prefix with
  | "" => true
  | String a prefix' =>
      match s with
      | "" => false
      | String b s' => Ascii.eqb a b && startsWith prefix' s'
      end
  end.

(** [occurs needle s]: [needle] is a substring of [s]. *)
Fixpoint occurs (needle s : string) : bool :=
  startsWith needle s ||
  match s with
  | "" => false
  | String _ s' => occurs needle s'
  end.

Fixpoint has_char (c : ascii) (s : string) : bool :=
  match s with
  | "" => false
  | String d s' => Ascii.eqb c d || has_char c s'
  end.

(** ** Constants of the module *)

Definition placeholders : list ascii :=
  ["o"; "O"; "d"; "i"; "s"; "f"]%char.

Definition COLLAPSED_CHAR : string := "…".
Definition COLLAPSED_ARROW_RAW : string := "⯈".
Definition EXPANDED_ARROW_RAW : string := "⯆".
Definition MAX_COLLAPSED_PROPERTIES : nat := 5.

Module ClassNames.
Definition NULLISH := "ec-nullish".
Definition STRING := "ec-string".
Definition STRING_OBJECT := "ec-regexp".
Definition NUMERIC := "ec-numeric".
Definition REGEXP := "ec-regexp".
Definition OBJECT := "ec-object".
Definition FUNCTION := "ec-function".
Definition OBJECT_HIDDEN_PROPERTY := "ec-hidden".
Definition SET := "ec-object".
Definition MAP := "ec-object".
Definition FUNCTION_SIGNATURE := "ec-function-signature".
Definition ARROW := "ec-collapse-arrow".
Definition DEFAULT := "ec-string".
Definition WARNING := "ec-warning".
Definition LOG := "ec-log".
Definition ERROR := "ec-error".
Definition ENTRY := "ec-entry".
Definition STACK := "ec-stack".
End ClassNames.

Definition internalProperties : list string := ["length"].

(** ** Values and objects *)

Definition loc := positive.

Inductive Value : Type :=
| VUndefined
| VNull
| VBool (b : bool)
| VNumber (n : Z)          (* integer-valued numbers only *)
| VBigInt (n : Z)
| VString (s : string)
| VSymbol (description : string)
| VRef (l : loc).

Inductive Exn : Type :=
| Thrown (v : Value)       (* a value thrown by user code *)
| TypeError (msg : string) (* raised by the language itself *).

Inductive Outcome (A : Type) : Type :=
| Returns (a : A)
| Throws (e : Exn).
Arguments Returns {A} a.
Arguments Throws {A} e.

(** A property descriptor: a data property, or an accessor whose getter (when
    there is one) is described by what a call of it does. *)
Inductive Descriptor : Type :=
| DataDesc (value : Value) (enumerable : bool)
| AccessorDesc (get : option (Outcome Value)) (enumerable : bool).

(** What the [instanceof] tests of the classifier see on the prototype chain. *)
Inductive Brand : Type :=
| BObject | BError | BRegExp | BSet | BMap | BWeakSet | BWeakMap.

Record Obj : Type := {
  callable : bool;                     (* typeof is function, else object *)
  isArray : bool;                      (* Array.isArray *)
  brand : Brand;
  own : list (string * Descriptor);    (* own string keys, in getOwnPropertyNames order *)
  inherited : list (string * Descriptor); (* what the prototype chain adds *)
  getTrap : option Exn;                (* a Proxy whose get trap throws *)
  toStr : Outcome string;              (* string conversion, hint string *)
  toDefault : Outcome string;          (* string conversion, hint default (the + operator) *)
  setKeys : Outcome (list Value);      (* Array.from(obj.keys()) *)
  mapEntries : Outcome (list (Value * Value)) (* Array.from(obj.entries()), as pairs *)
}.

Definition Heap := loc -> Obj.

(** The location of the built-in [Object] constructor. *)
Definition ObjectCtor : loc := 1%positive.

(** [value === Object] *)
Definition isObjectCtor (v : Value) : bool :=
  match v with
  | VRef l => Pos.eqb l ObjectCtor
  | _ => false
  end.

Fixpoint lookupProp (key : string) (ps : list (string * Descriptor)) : option Descriptor :=
  match ps with
  | [] => None
  | (k, d) :: rest => if String.eqb key k then Some d else lookupProp key rest
  end.

Definition truthy (v : Value) : bool :=
  match v with
  | VUndefined | VNull => false
  | VBool b => b
  | VNumber n | VBigInt n => negb (n =? 0)%Z
  | VString s => negb (String.eqb s "")
  | VSymbol _ | VRef _ => true
  end.

Definition numberToString (n : Z) : string :=
  NilZero.string_of_int (Z.to_int n).

(** ** The monad of the inspector *)

Inductive Event : Type :=
| EGetter (l : loc) (key : string)   (* the getter of [key] was called on [l] *)
| EWalk (l : loc)                    (* the structural walk entered [l] *).

Record State : Type := {
  visited : gset loc;
  trace : list Event
}.

Inductive Result (A : Type) : Type :=
| Ok (a : A) (s : State)
| Raise (e : Exn) (s : State)
| OutOfFuel.
Arguments Ok {A} a s.
Arguments Raise {A} e s.
Arguments OutOfFuel {A}.

Definition M (A : Type) : Type := State -> Result A.

Definition ret {A} (a : A) : M A := fun s => Ok a s.

Definition bind {A B} (m : M A) (f : A -> M B) : M B :=
  fun s =>
    match m s with
    | Ok a s' => f a s'
    | Raise e s' => Raise e s'
    | OutOfFuel => OutOfFuel
    end.

Definition throw {A} (e : Exn) : M A := fun s => Raise e s.
Definition outOfFuel {A} : M A := fun _ => OutOfFuel.

Definition lift {A} (o : Outcome A) : M A :=
  match o with
  | Returns a => ret a
  | Throws e => throw e
  end.

Definition emit (ev : Event) : M unit :=
  fun s => Ok tt {| visited := visited s; trace := trace s ++ [ev] |}.

Notation "'do' x <- c1 ; c2" := (bind c1 (fun x => c2))
  (at level 10, x name, c1 at level 100, c2 at level 200).
Notation "'run' c1 ; c2" := (bind c1 (fun _ => c2))
  (at level 10, c1 at level 100, c2 at level 200).

Fixpoint mapM {A B} (f : A -> M B) (l : list A) : M (list B) :=
  match l with
  | [] => ret []
  | a :: rest => do b <- f a; do bs <- mapM f rest; ret (b :: bs)
  end.

(** The visited [WeakSet]: only objects can be members. *)
Definition weakSetHas (v : Value) : M bool :=
  fun s =>
    match v with
    | VRef l => Ok (bool_decide (l ∈ visited s)) s
    | _ => Ok false s
    end.

Definition weakSetAdd (v : Value) : M unit :=
  fun s =>
    match v with
    | VRef l => Ok tt {| visited := {[l]} ∪ visited s; trace := trace s |}
    | _ => Raise (TypeError "Invalid value used in weak set") s
    end.

(** ** [escapeHtml], [wrapInSpan], [trimString] *)

Definition escapeChar (char : ascii) : string :=
  if Ascii.eqb char "<" then "&lt;"
  else if Ascii.eqb char ">" then "&gt;"
  else if Ascii.eqb char " " then "&nbsp;"
  else if Ascii.eqb char newline then "<br />"
  else String char "".

(** The loop of [escapeHtml], with its accumulator [result]. *)
Fixpoint escapeLoop (value : string) (result : string) : string :=
  match value with
  | "" => result
  | String char rest => escapeLoop rest (result +:+ escapeChar char)
  end.

Definition escapeString (value : string) : string := escapeLoop value "".

(** The template literal of [wrapInSpan]. *)
Definition span (className escaped : string) : string :=
  "<span class=" +:+ dquote +:+ className +:+ dquote +:+ ">" +:+ escaped +:+ "</span>".

Definition trimString (str : string) (maxLen : nat) : string :=
  let len := Nat.min (String.length str) maxLen in
  String.substring 0 len str +:+
  (if (maxLen <? String.length str)%nat then COLLAPSED_CHAR else "").

Definition FUNCTION_SIGNATURE_PREFIX : string :=
  span ClassNames.FUNCTION_SIGNATURE "ƒ ".
Definition COLLAPSED_ARROW : string := span ClassNames.ARROW COLLAPSED_ARROW_RAW.
Definition EXPANDED_ARROW : string := span ClassNames.ARROW EXPANDED_ARROW_RAW.

Section Inspector.

Variable h : Heap.

(** *** Conversions and reads that may run user code *)

(** Conversion to a primitive string of an object, through a Proxy if any. *)
Definition objectToString (l : loc) (sel : Obj -> Outcome string) : M string :=
  match getTrap (h l) with
  | Some e => throw e
  | None => lift (sel (h l))
  end.

(** [ToString], as template literals apply it. *)
Definition ToString (v : Value) : M string :=
  match v with
  | VUndefined => ret "undefined"
  | VNull => ret "null"
  | VBool true => ret "true"
  | VBool false => ret "false"
  | VNumber n => ret (numberToString n)
  | VBigInt n => ret (numberToString n)
  | VString s => ret s
  | VSymbol _ => throw (TypeError "Cannot convert a Symbol value to a string")
  | VRef l => objectToString l toStr
  end.

(** [native.String(value)]: as [ToString], but a symbol is described. *)
Definition nativeString (v : Value) : M string :=
  match v with
  | VSymbol d => ret ("Symbol(" +:+ d +:+ ")")
  | _ => ToString v
  end.

(** [str + value] with [str] a string. *)
Definition concat (str : string) (v : Value) : M string :=
  match v with
  | VRef l => do s <- objectToString l toDefault; ret (str +:+ s)
  | _ => do s <- ToString v; ret (str +:+ s)
  end.

(** [value[key]]: an own property first, then the prototype chain; a getter
    is called (and recorded); a Proxy traps the read. *)
Definition Get (v : Value) (key : string) : M Value :=
  match v with
  | VRef l =>
      match getTrap (h l) with
      | Some e => throw e
      | None =>
          match lookupProp key (own (h l) ++ inherited (h l)) with
          | Some (DataDesc x _) => ret x
          | Some (AccessorDesc (Some g) _) => run emit (EGetter l key); lift g
          | Some (AccessorDesc None _) => ret VUndefined
          | None => ret VUndefined
          end
      end
  | VUndefined | VNull =>
      throw (TypeError ("Cannot read properties of nullish: " +:+ key))
  | _ => ret VUndefined (* the wrapper prototypes have none of the keys read here *)
  end.

Definition getOwnPropertyDescriptors (v : Value) : list (string * Descriptor) :=
  match v with
  | VRef l => own (h l)
  | _ => []
  end.

Definition getOwnPropertyNames (v : Value) : list string :=
  match v with
  | VRef l => map fst (own (h l))
  | _ => []
  end.

(** [native.arrayFrom(value.keys())] and [native.arrayFrom(value.entries())]. *)
Definition keysOf (v : Value) : M (list Value) :=
  match v with
  | VRef l =>
      match getTrap (h l) with
      | Some e => throw e
      | None => lift (setKeys (h l))
      end
  | _ => throw (TypeError "value.keys is not a function")
  end.

Definition entriesOf (v : Value) : M (list (Value * Value)) :=
  match v with
  | VRef l =>
      match getTrap (h l) with
      | Some e => throw e
      | None => lift (mapEntries (h l))
      end
  | _ => throw (TypeError "value.entries is not a function")
  end.

(** *** The classifier [is] *)

Definition hasBrand (b : Brand) (v : Value) : bool :=
  match v with
  | VRef l =>
      match brand (h l), b with
      | BObject, BObject | BError, BError | BRegExp, BRegExp | BSet, BSet
      | BMap, BMap | BWeakSet, BWeakSet | BWeakMap, BWeakMap => true
      | _, _ => false
      end
  | _ => false
  end.

Definition is_nullish (v : Value) : bool :=
  match v with VUndefined | VNull => true | _ => false end.
Definition is_number (v : Value) : bool :=
  match v with VNumber _ => true | _ => false end.
Definition is_bool (v : Value) : bool :=
  match v with VBool _ => true | _ => false end.
Definition is_string (v : Value) : bool :=
  match v with VString _ => true | _ => false end.
Definition is_bigint (v : Value) : bool :=
  match v with VBigInt _ => true | _ => false end.
Definition is_function (v : Value) : bool :=
  match v with VRef l => callable (h l) | _ => false end.
Definition is_array (v : Value) : bool :=
  match v with VRef l => isArray (h l) | _ => false end.
Definition is_error := hasBrand BError.
Definition is_regexp := hasBrand BRegExp.
Definition is_set := hasBrand BSet.
Definition is_map := hasBrand BMap.
Definition is_weakset := hasBrand BWeakSet.
Definition is_weakmap := hasBrand BWeakMap.
Definition is_weak (v : Value) : bool := is_weakset v || is_weakmap v.
Definition is_loseObject (v : Value) : bool :=
  negb (is_nullish v) && match v with VRef l => negb (callable (h l)) | _ => false end.
Definition is_strictObject (v : Value) : bool :=
  is_loseObject v && negb (is_array v).

(** *** [escapeHtml] and [wrapInSpan] on values *)

Definition escapeHtml (value : Value) : M string :=
  do value <- match value with
              | VString s => ret s
              | _ => nativeString value
              end;
  ret (escapeString value).

Definition wrapInSpan (className : string) (value : Value) (doEscape : bool) : M string :=
  do escaped <- (if doEscape then escapeHtml value else ToString value);
  ret (span className escaped).

(** *** [inspect] and [recursiveInspect]

    [fuel] bounds the depth of the recursion; the visited set [visited] of
    the source is the state of the monad. *)

(** The characters of a value known to be a string. *)
Definition asString (v : Value) : string :=
  match v with
  | VString s => s
  | _ => ""
  end.

(** [value.length >= 2]: the length of an array is a number; a length of
    another kind (which the comparison would first convert) compares false
    here. *)
Definition atLeast2 (v : Value) : bool :=
  match v with
  | VNumber n | VBigInt n => (2 <=? n)%Z
  | _ => false
  end.

Definition hasGetter (descriptor : option Descriptor) : bool :=
  match descriptor with
  | Some (AccessorDesc (Some _) _) => true
  | _ => false
  end.

Definition notEnumerable (descriptor : option Descriptor) : bool :=
  match descriptor with
  | Some (DataDesc _ e) | Some (AccessorDesc _ e) => negb e
  | None => false
  end.

Definition setHas (key : string) (set : list string) : bool :=
  existsb (String.eqb key) set.

(** The [for (const key of keys)] loop of [recursiveInspect]; [insp] is the
    recursive call [inspect(value, visited, true, collapsed)]. *)
Fixpoint forKeys (insp : Value -> bool -> bool -> M string)
    (obj : Value) (isArr collapsed : bool)
    (descriptors : list (string * Descriptor))
    (keys : list string) (count : nat) (str : string) : M string :=
  match keys with
  | [] => ret str
  | key :: rest =>
      let count := S count in
      if collapsed && (MAX_COLLAPSED_PROPERTIES <=? count)%nat then
        ret (str +:+ ", " +:+ COLLAPSED_CHAR)
      else
        let descriptor := lookupProp key descriptors in
        do result <-
          (if hasGetter descriptor then
             ret (FUNCTION_SIGNATURE_PREFIX +:+ " [Getter]")
           else
             do value <- Get obj key;
             do seen <- weakSetHas value;
             if seen then ret "[Circular]"
             else
               run (if is_loseObject value then weakSetAdd value else ret tt);
               insp value true collapsed);
        let str := if (0 <? String.length str)%nat then str +:+ ", " else str in
        let str := if negb collapsed then str +:+ "<br />" else str in
        let hasInternalProperty := setHas key internalProperties in
        let str :=
          if negb isArr || hasInternalProperty then
            let escapedKey := escapeString key in
            let escapedKey :=
              if hasInternalProperty then "[" +:+ escapedKey +:+ "]" else escapedKey in
            if notEnumerable descriptor then
              str +:+ span ClassNames.OBJECT_HIDDEN_PROPERTY escapedKey +:+ ": " +:+ result
            else str +:+ escapedKey +:+ ": " +:+ result
          else str +:+ result in
        forKeys insp obj isArr collapsed descriptors rest count str
  end.

(** The ghost record of a walk. *)
Definition walked (v : Value) : M unit :=
  match v with
  | VRef l => emit (EWalk l)
  | _ => ret tt
  end.

(** The body of [inspect]; [inspect] and [recursiveInspect] stand for the
    two functions at the recursive calls. *)
Definition inspectBody (inspect recursiveInspect : Value -> bool -> bool -> M string)
    (value : Value) (inObject collapsed : bool) : M string :=
  let self := fun value inObject collapsed => inspect value inObject collapsed in
  let selfRecursive := fun value =>
    run weakSetAdd value;
    recursiveInspect value inObject collapsed in
  let ARROW := if collapsed then COLLAPSED_ARROW else EXPANDED_ARROW in
  if is_string value then
    if inObject then
      wrapInSpan ClassNames.STRING_OBJECT
        (VString (dquote +:+ trimString (asString value) 100 +:+ dquote)) true
    else wrapInSpan ClassNames.STRING value true
  else if is_nullish value then wrapInSpan ClassNames.NULLISH value true
  else if is_error value then
    do stack <- Get value "stack";
    wrapInSpan ClassNames.DEFAULT (if truthy stack then stack else value) true
  else if is_regexp value then wrapInSpan ClassNames.REGEXP value true
  else if is_set value then
    do size <- Get value "size";
    do inspectedSize <- self size true true;
    let prefix := "Set(" +:+ inspectedSize +:+ ")" in
    do keys <- keysOf value;
    do parts <- mapM (fun k => self k false true) keys;
    let inspected := join ", " parts in
    let fmt := prefix +:+ " {" +:+ inspected +:+ "}" in
    wrapInSpan ClassNames.SET (VString fmt) false
  else if is_map value then
    do size <- Get value "size";
    do inspectedSize <- self size true true;
    let prefix := "Map(" +:+ inspectedSize +:+ ")" in
    do entries <- entriesOf value;
    do parts <- mapM (fun kv =>
                  do k <- self (fst kv) true true;
                  do v <- self (snd kv) true true;
                  ret (k +:+ " => " +:+ v)) entries;
    let inspected := join ", " parts in
    let fmt := prefix +:+ " {" +:+ inspected +:+ "}" in
    wrapInSpan ClassNames.MAP (VString fmt) false
  else if is_strictObject value then
    do result <-
      (if is_weak value then escapeHtml (VString "{ <items unknown> }")
       else selfRecursive value);
    let prefix := ARROW +:+ " " in
    do valueConstructor <- Get value "constructor";
    do prefix <-
      (if truthy valueConstructor && negb (isObjectCtor valueConstructor) then
         do name <- Get valueConstructor "name";
         do inspectedName <- self name false true;
         ret (prefix +:+ inspectedName +:+ " ")
       else ret prefix);
    wrapInSpan ClassNames.OBJECT (VString (prefix +:+ result)) false
  else if is_array value then
    do result <- selfRecursive value;
    let prefix := ARROW +:+ " " in
    do len <- Get value "length";
    do prefix <-
      (if atLeast2 len then
         do inspectedLength <- self len true true;
         ret (prefix +:+ "(" +:+ inspectedLength +:+ ") ")
       else ret prefix);
    wrapInSpan ClassNames.OBJECT (VString (prefix +:+ result)) false
  else if is_function value then
    do name <- Get value "name";
    if truthy name then
      do val <- nativeString value;
      do val <- (if inObject then
                   do n <- ToString name; ret (n +:+ "()")
                 else ret val);
      do wrapped <- wrapInSpan ClassNames.FUNCTION (VString (trimString val 100)) true;
      ret (FUNCTION_SIGNATURE_PREFIX +:+ wrapped)
    else
      wrapInSpan ClassNames.FUNCTION (VString ("() => " +:+ COLLAPSED_CHAR)) true
  else if is_number value || is_bool value then
    wrapInSpan ClassNames.NUMERIC value true
  else if is_bigint value then
    do s <- concat "" value;
    wrapInSpan ClassNames.STRING (VString (s +:+ "n")) true
  else wrapInSpan ClassNames.DEFAULT value true.

(** The body of [recursiveInspect]. *)
Definition recursiveInspectBody (inspect : Value -> bool -> bool -> M string)
    (obj : Value) (inObject collapsed : bool) : M string :=
  if negb (is_loseObject obj) then inspect obj inObject collapsed
  else
    let isArr := is_array obj in
    let descriptors := getOwnPropertyDescriptors obj in
    let keys := getOwnPropertyNames obj in
    run walked obj;
    do str <- forKeys inspect obj isArr collapsed descriptors keys 0 "";
    ret (if negb isArr then "{" +:+ str +:+ "}" else "[" +:+ str +:+ "]").

Fixpoint inspect (fuel : nat) : Value -> bool -> bool -> M string :=
  match fuel with
  | O => fun _ _ _ => outOfFuel
  | S fuel => inspectBody (inspect fuel) (recursiveInspect fuel)
  end
with recursiveInspect (fuel : nat) : Value -> bool -> bool -> M string :=
  match fuel with
  | O => fun _ _ _ => outOfFuel
  | S fuel => recursiveInspectBody (inspect fuel)
  end.

(** A top-level call: [visited] defaults to a fresh [WeakSet]. *)
Definition inspectTop (fuel : nat) (value : Value) (inObject collapsed : bool) : M string :=
  fun s => inspect fuel value inObject collapsed {| visited := ∅; trace := trace s |}.

(** *** The formatter [_formatString] *)

Definition placeholdersHas (char : ascii) : bool :=
  existsb (Ascii.eqb char) placeholders.

(** [initial[i - 1] === '%']; [prev] is [None] at [i = 0]. *)
Definition isPercent (prev : option ascii) : bool :=
  match prev with
  | Some c => Ascii.eqb c "%"
  | None => false
  end.

(** The loop over the characters of the template [initial]: [rest] is what
    is left of it from index [i] on, [prev] is [initial[i - 1]]. *)
Fixpoint templateLoop (data : list Value) (prev : option ascii) (rest : string)
    (idx : nat) (res : string) : M (nat * string) :=
  match rest with
  | "" => ret (idx, res)
  | String char rest =>
      if placeholdersHas char && isPercent prev then
        let idx := S idx in
        let arg := nth idx data VUndefined in
        do res <- (if truthy arg then concat res arg
                   else ret (res +:+ "%" +:+ String char ""));
        templateLoop data (Some char) rest idx res
      else if Ascii.eqb char "%" then templateLoop data (Some char) rest idx res
      else templateLoop data (Some char) rest idx (res +:+ String char "")
  end.

(** [Array.prototype.slice]: a copy, the receiver is left as it is. *)
Definition arraySlice {A} (l : list A) (start stop : nat) : list A :=
  take (stop - start) (drop start l).

(** The callback of the final [map]: one top-level inspection under
    [try]/[catch]. *)
Definition inspectParam (fuel : nat) (collapsed : bool) (param : Value) : M string :=
  fun s =>
    match inspectTop fuel param false collapsed s with
    | Ok value s' => Ok value s'
    | Raise _ s' => Ok "[Unknown]" s'
    | OutOfFuel => OutOfFuel
    end.

Definition _formatString (fuel : nat) (collapsed : bool) (data : list Value) : M string :=
  let initial := nth 0 data VUndefined in
  do data <-
    match initial with
    | VString initial =>
        do r <- templateLoop data None initial 0 "";
        let idx := fst r in
        let res := snd r in
        let data := <[0%nat := VString res]> data in
        let _ := arraySlice data 1 idx in
        ret data
    | _ => ret data
    end;
  do parts <- mapM (inspectParam fuel collapsed) data;
  ret (join " " parts).

(** *** The console: entries and timers *)

Record Entry : Type := {
  logLevel : string;
  innerHTML : string;
  fn : string;               (* the method named to [getContextLine] *)
  rawData : list Value       (* what [logs] associates with the element *)
}.

Record EmbeddedConsole : Type := {
  timers : gmap string Z;
  entries : list Entry       (* the children of [element], oldest first *)
}.

Definition _add (c : EmbeddedConsole) (innerHTML logLevel fn : string)
    (data : list Value) : EmbeddedConsole :=
  {| timers := timers c;
     entries := entries c ++
       [{| logLevel := logLevel; innerHTML := innerHTML; fn := fn; rawData := data |}] |}.

Definition warn (fuel : nat) (data : list Value) (c : EmbeddedConsole) : M EmbeddedConsole :=
  do html <- _formatString fuel true data;
  ret (_add c html ClassNames.WARNING "warn" data).

Definition log (fuel : nat) (data : list Value) (c : EmbeddedConsole) : M EmbeddedConsole :=
  do html <- _formatString fuel true data;
  ret (_add c html ClassNames.LOG "log" data).

Definition error (fuel : nat) (data : list Value) (c : EmbeddedConsole) : M EmbeddedConsole :=
  do html <- _formatString fuel true data;
  ret (_add c html ClassNames.ERROR "error" data).

Definition info := log.

(** [specifier = 'default'] *)
Definition orDefault (specifier : option string) : string :=
  match specifier with
  | Some s => s
  | None => "default"
  end.

(** [now] is what [native.performanceNow()] returns at the call. *)
Definition time (now : Z) (specifier : option string) (c : EmbeddedConsole)
    : EmbeddedConsole :=
  let specifier := orDefault specifier in
  {| timers := <[specifier := now]> (timers c); entries := entries c |}.

Definition timeEnd (fuel : nat) (now : Z) (specifier : option string)
    (c : EmbeddedConsole) : M EmbeddedConsole :=
  let specifier := orDefault specifier in
  match timers c !! specifier with
  | None => warn fuel [VString ("Timer " +:+ specifier +:+ " does not exist")] c
  | Some p =>
      do c <- log fuel [VString (specifier +:+ ":");
                        VString (numberToString (now - p) +:+ "ms")] c;
      ret {| timers := delete specifier (timers c); entries := entries c |}
  end.

End Inspector.

(** ** Objects used in the statements *)

Definition noKeys : Outcome (list Value) :=
  Throws (TypeError "value.keys is not a function").
Definition noEntries : Outcome (list (Value * Value)) :=
  Throws (TypeError "value.entries is not a function").

(** What an object literal inherits from [Object.prototype] as far as the
    engine reads it: [constructor]. *)
Definition objectPrototype : list (string * Descriptor) :=
  [("constructor", DataDesc (VRef ObjectCtor) false)].

(** An object literal with the own properties [props]. *)
Definition literal (props : list (string * Descriptor)) : Obj :=
  {| callable := false; isArray := false; brand := BObject;
     own := props; inherited := objectPrototype; getTrap := None;
     toStr := Returns "[object Object]"; toDefault := Returns "[object Object]";
     setKeys := noKeys; mapEntries := noEntries |}.

(** The [Object] constructor itself. *)
Definition objectCtorObj : Obj :=
  {| callable := true; isArray := false; brand := BObject;
     own := [("length", DataDesc (VNumber 1) false); ("name", DataDesc (VString "Object") false)];
     inherited := []; getTrap := None;
     toStr := Returns "function Object() { [native code] }";
     toDefault := Returns "function Object() { [native code] }";
     setKeys := noKeys; mapEntries := noEntries |}.

(** [new Proxy({}, { get() { throw e } })] *)
Definition throwingProxy (e : Exn) : Obj :=
  {| callable := false; isArray := false; brand := BObject;
     own := []; inherited := objectPrototype; getTrap := Some e;
     toStr := Throws e; toDefault := Throws e;
     setKeys := noKeys; mapEntries := noEntries |}.

(** A [Set] (or an object with [Set.prototype] on its chain): [size] is what
    a read of [size] finds, [elems] what iterating [keys()] does. *)
Definition setLike (props : list (string * Descriptor)) (size : Descriptor)
    (elems : Outcome (list Value)) : Obj :=
  {| callable := false; isArray := false; brand := BSet;
     own := props; inherited := [("size", size)]; getTrap := None;
     toStr := Returns "[object Set]"; toDefault := Returns "[object Set]";
     setKeys := elems; mapEntries := noEntries |}.

(** A heap given by the objects at a few locations; [Object] is at
    [ObjectCtor], empty object literals elsewhere. *)
Fixpoint heapOf (objs : list (loc * Obj)) : Heap :=
  fun l =>
    match objs with
    | [] => if Pos.eqb l ObjectCtor then objectCtorObj else literal []
    | (l', o) :: rest => if Pos.eqb l l' then o else heapOf rest l
    end.

Definition initial : State := {| visited := ∅; trace := [] |}.


(** *** The inputs of the examples *)

(** [{ get constructor() { throw 1 } }], at location 2. *)
Definition constructorGetterHeap : Heap :=
  heapOf [(2%positive,
           literal [("constructor", AccessorDesc (Some (Throws (Thrown (VNumber 1)))) true)])].

(** [new Proxy({}, { get() { throw 1 } })], at location 2. *)
Definition proxyHeap : Heap :=
  heapOf [(2%positive, throwingProxy (Thrown (VNumber 1)))].

(** What [Set.prototype] gives a set of [n] elements: the native [size]
    getter. *)
Definition nativeSize (n : Z) : Descriptor :=
  AccessorDesc (Some (Returns (VNumber n))) false.

(** [a = {}; a.s = new Set([a])]: [a] at location 2, the set at 3. *)
Definition setCycleHeap : Heap :=
  heapOf [(2%positive, literal [("s", DataDesc (VRef 3%positive) true)]);
          (3%positive, setLike [] (nativeSize 1) (Returns [VRef 2%positive]))].

(** [s = new Set(); s.add(s)], at location 3. *)
Definition selfSetHeap : Heap :=
  heapOf [(3%positive, setLike [] (nativeSize 1) (Returns [VRef 3%positive]))].

(** [{a: 1, b: 2, c: 3, d: 4, e: 5, f: 6, g: 7, h: 8, i: 9, j: 10}], at
    location 2. *)
Definition tenProperties : list (string * Descriptor) :=
  [("a", DataDesc (VNumber 1) true); ("b", DataDesc (VNumber 2) true);
   ("c", DataDesc (VNumber 3) true); ("d", DataDesc (VNumber 4) true);
   ("e", DataDesc (VNumber 5) true); ("f", DataDesc (VNumber 6) true);
   ("g", DataDesc (VNumber 7) true); ("h", DataDesc (VNumber 8) true);
   ("i", DataDesc (VNumber 9) true); ("j", DataDesc (VNumber 10) true)].

Definition tenHeap : Heap := heapOf [(2%positive, literal tenProperties)].

(** [class S extends Set { get size() { return '<b>x</b>' } }; new S()], at
    location 3: no element, and a [size] accessor that returns markup. *)
Definition hostileSizeHeap : Heap :=
  heapOf [(3%positive,
           setLike [] (AccessorDesc (Some (Returns (VString "<b>x</b>"))) false)
                   (Returns []))].

(** The rendering of a number. *)
Definition numeric (n : Z) : string :=
  span "ec-numeric" (escapeString (numberToString n)).

(** ** Notions used by the statements *)

Fixpoint countChar (c : ascii) (s : string) : nat :=
  match s with
  | "" => 0
  | String d s' => (if Ascii.eqb c d then 1 else 0) + countChar c s'
  end.

(** Text in which the only angle brackets are those of the line breaks the
    engine writes. *)
Inductive BreaksOnly : string -> Prop :=
| breaks_nil : BreaksOnly ""
| breaks_char c s :
    Ascii.eqb c "<" = false -> Ascii.eqb c ">" = false ->
    BreaksOnly s -> BreaksOnly (String c s)
| breaks_br s : BreaksOnly s -> BreaksOnly ("<br />" +:+ s).

(** What a string is shown as: itself at top level, quoted and trimmed inside
    a composite. *)
Definition shownText (s : string) (inObject : bool) : string :=
  if inObject then dquote +:+ trimString s 100 +:+ dquote else s.

(** The state a top-level inspection starts from. *)
Definition fresh (st : State) : State := {| visited := ∅; trace := trace st |}.

Definition raises {A} (r : Result A) : bool :=
  match r with
  | Raise _ _ => true
  | _ => false
  end.

(** *** The template of the formatter, read forwards

    [substituted template args] is the text the loop of [_formatString]
    builds when the trailing arguments [args] are primitive values other than
    symbols: a percent sign followed by a recognized specifier stands for the
    next argument, in its string form when the argument is truthy and as the
    literal placeholder otherwise; any other percent sign is dropped. *)

Definition primitive (v : Value) : bool :=
  match v with
  | VSymbol _ | VRef _ => false
  | _ => true
  end.

Definition primitiveString (v : Value) : string :=
  match v with
  | VUndefined => "undefined"
  | VNull => "null"
  | VBool true => "true"
  | VBool false => "false"
  | VNumber n | VBigInt n => numberToString n
  | VString s => s
  | VSymbol _ | VRef _ => ""
  end.

Definition placeholderText (char : ascii) (arg : Value) : string :=
  if truthy arg then primitiveString arg else "%" +:+ String char "".

Fixpoint substituted (template : string) (args : list Value) : string :=
  match template with
  | "" => ""
  | String c rest =>
      if Ascii.eqb c "%" then
        match rest with
        | String d rest' =>
            if placeholdersHas d then
              placeholderText d (hd VUndefined args) +:+ substituted rest' (tl args)
            else substituted rest args
        | "" => ""
        end
      else String c (substituted rest args)
  end.

(** The number of placeholders of a template: percent signs followed by a
    recognized specifier. *)
Fixpoint countPlaceholders (template : string) : nat :=
  match template with
  | "" => 0
  | String c rest =>
      (if Ascii.eqb c "%" &&
          match rest with String d _ => placeholdersHas d | "" => false end
       then 1 else 0) + countPlaceholders rest
  end.

Fixpoint dropPercent (template : string) : string :=
  match template with
  | "" => ""
  | String c rest =>
      if Ascii.eqb c "%" then dropPercent rest else String c (dropPercent rest)
  end.

(** The top-level rendering of a primitive value. *)
Definition rendering (v : Value) : string :=
  match v with
  | VString s => span "ec-string" (escapeString s)
  | VUndefined => span "ec-nullish" "undefined"
  | VNull => span "ec-nullish" "null"
  | VBool b => span "ec-numeric" (if b then "true" else "false")
  | VNumber n => numeric n
  | VBigInt n => span "ec-string" (escapeString (numberToString n +:+ "n"))
  | VSymbol d => span "ec-string" (escapeString ("Symbol(" +:+ d +:+ ")"))
  | VRef _ => ""
  end.

(** *** Markup whose tags are the engine's

    The tags the engine writes: the opening of a span of one of its classes,
    the closing of a span, and the line break.  [safe s]: wherever [s] has a
    [<], one of these tags starts there. *)

Definition engineTags : list string :=
  ["<span class=" +:+ dquote +:+ "ec-"; "</span>"; "<br />"].

Definition tagStarts (s : string) : bool :=
  existsb (fun tag => startsWith tag s) engineTags.

Fixpoint safe (s : string) : bool :=
  match s with
  | "" => true
  | String c rest =>
      (if Ascii.eqb c "<" then tagStarts s else true) && safe rest
  end.

(** A class name of the engine: it starts with [ec-] and has no [<]. *)
Definition engineClass (className : string) : bool :=
  startsWith "ec-" className && negb (has_char "<" className).

(** [Ensures P m]: whatever [m] returns satisfies [P]. *)
Definition Ensures {A} (P : A -> Prop) (m : M A) : Prop :=
  forall s a s', m s = Ok a s' -> P a.

Definition isSafe (out : string) : Prop := safe out = true.

(** *** Timers *)

(** The message of [timeEnd] for a label without timer, and the entries the
    two outcomes of [timeEnd] add. *)
Definition missingTimer (label : string) : string :=
  "Timer " +:+ label +:+ " does not exist".

Definition warningEntry (label : string) : Entry :=
  {| logLevel := "ec-warning";
     innerHTML := span "ec-string" (escapeString (substituted (missingTimer label) []));
     fn := "warn";
     rawData := [VString (missingTimer label)] |}.

Definition elapsedEntry (label : string) (elapsed : Z) : Entry :=
  let ms := numberToString elapsed +:+ "ms" in
  {| logLevel := "ec-log";
     innerHTML :=
       span "ec-string" (escapeString (substituted (label +:+ ":") [VString ms])) +:+
       " " +:+ span "ec-string" (escapeString ms);
     fn := "log";
     rawData := [VString (label +:+ ":"); VString ms] |}.

Definition emptyConsole : EmbeddedConsole := {| timers := ∅; entries := [] |}.

(** *** The rest of the console *)

(** [assert(condition, ...data)] *)
Definition assert (h : Heap) (fuel : nat) (condition : Value) (data : list Value)
    (c : EmbeddedConsole) : M EmbeddedConsole :=
  if negb (truthy condition) then error h fuel (VString "Assertion failed:" :: data) c
  else ret c.

(** [clear()]: emptying the text of [element] removes its children; the
    timers are another field. *)
Definition clear (c : EmbeddedConsole) : EmbeddedConsole :=
  {| timers := timers c; entries := [] |}.

(** [needle] cannot be read as the beginning of a tag of the engine, nor a
    tag of the engine as the beginning of [needle]. *)
Definition clashes (needle : string) : bool :=
  forallb (fun tag => negb (startsWith tag needle) && negb (startsWith needle tag))
    engineTags.

(** A constructor function named [name]. *)
Definition ctorObj (name : string) : Obj :=
  {| callable := true; isArray := false; brand := BObject;
     own := [("length", DataDesc (VNumber 0) false); ("name", DataDesc (VString name) false)];
     inherited := []; getTrap := None;
     toStr := Returns ("function " +:+ name +:+ "() { [native code] }");
     toDefault := Returns ("function " +:+ name +:+ "() { [native code] }");
     setKeys := noKeys; mapEntries := noEntries |}.


(** *** [getContextLine]

    The string operations of the native snapshot that [getContextLine] uses,
    with their indices in [Z] (-1 for not found, negative bounds counted from
    the end). *)

(** [native.stringSplit.call(s, sep)] for a separator of one unit. *)
Fixpoint stringSplitFrom (sep : ascii) (s : string) (piece : string) : list string :=
  match s with
  | "" => [piece]
  | String c rest =>
      if Ascii.eqb c sep then piece :: stringSplitFrom sep rest ""
      else stringSplitFrom sep rest (piece +:+ String c "")
  end.

Definition stringSplit (s : string) (sep : ascii) : list string :=
  stringSplitFrom sep s "".

(** [native.stringIncludes.call(s, pattern)] *)
Definition stringIncludes (s pattern : string) : bool := occurs pattern s.

(** [native.arrayFindIndex.call(l, p)] *)
Fixpoint arrayFindIndex {A} (p : A -> bool) (l : list A) : Z :=
  match l with
  | [] => -1
  | x :: rest =>
      if p x then 0
      else let r := arrayFindIndex p rest in if (r <? 0)%Z then -1 else (r + 1)%Z
  end.

(** [native.stringIndexOf.call(s, pattern)] *)
Fixpoint stringIndexOf (s pattern : string) : Z :=
  if startsWith pattern s then 0
  else match s with
       | "" => -1
       | String _ rest =>
           let r := stringIndexOf rest pattern in if (r <? 0)%Z then -1 else (r + 1)%Z
       end.

(** [native.stringLastIndexOf.call(s, pattern)] *)
Fixpoint stringLastIndexOf (s pattern : string) : Z :=
  match s with
  | "" => if startsWith pattern "" then 0 else -1
  | String _ rest =>
      let r := stringLastIndexOf rest pattern in
      if (0 <=? r)%Z then (r + 1)%Z
      else if startsWith pattern s then 0 else -1
  end.

Fixpoint dropUnits (n : nat) (s : string) : string :=
  match n, s with
  | O, _ => s
  | S n', "" => ""
  | S n', String _ rest => dropUnits n' rest
  end.

(** A relative index, as [substr] and [slice] read it: from the end when
    negative, never outside the string. *)
Definition clampIndex (len : nat) (i : Z) : nat :=
  if (i <? 0)%Z then Z.to_nat (Z.max (Z.of_nat len + i) 0)
  else Nat.min (Z.to_nat i) len.

(** [native.substr.call(s, start)] *)
Definition substr (s : string) (start : Z) : string :=
  dropUnits (clampIndex (String.length s) start) s.

(** [native.stringSlice.call(s, start, stop)] *)
Definition stringSlice (s : string) (start stop : Z) : string :=
  let from := clampIndex (String.length s) start in
  let to := clampIndex (String.length s) stop in
  String.substring from (to - from) s.

(** [native.replace.call(s, pattern, replacement)] for a string pattern and a
    replacement without dollar sign: the first occurrence is replaced. *)
Fixpoint replace (s pattern replacement : string) : string :=
  if startsWith pattern s then replacement +:+ dropUnits (String.length pattern) s
  else match s with
       | "" => ""
       | String c rest => String c (replace rest pattern replacement)
       end.

(** [getContextLine(fn)]; [stack] is what [new Error().stack] gives, [None]
    when the engine has none.  The body of the [try] is an option: [None] when
    a call on an undefined receiver throws. *)
Definition getContextLine (stack : option string) (fn : string) : string :=
  let body : option string :=
    match stack with
    | None => None
    | Some stack =>
        let stack := stringSplit stack newline in
        let lineIdx := arrayFindIndex (fun x => stringIncludes x (fn +:+ " (")) stack in
        match nth_error stack (Z.to_nat (lineIdx + 1)) with
        | None => None
        | Some line =>
            let fnCtx := substr line 7 in
            let charIdx := stringIndexOf fnCtx "(" in
            let fullCtx :=
              stringSlice fnCtx (charIdx + 1)
                (if (0 <=? charIdx)%Z then -1 else Z.of_nat (String.length fnCtx)) in
            let lastPath := stringLastIndexOf fullCtx "/" in
            let shortenedCtx :=
              if (0 <=? lastPath)%Z then substr fullCtx (lastPath + 1) else fullCtx in
            Some (replace
                    (stringSlice shortenedCtx 0 (stringLastIndexOf shortenedCtx ":"))
                    "<anonymous>" "VM")
        end
    end in
  match body with
  | Some line => line
  | None => "VM:1"
  end.

(** A stack as Chrome writes it for a call of [log] from [main] in [app.js]. *)
Definition chromeStack : string :=
  "Error" +:+ String newline "" +:+
  "    at getContextLine (http://localhost:3000/console.js:117:50)" +:+ String newline "" +:+
  "    at EmbeddedConsole._add (http://localhost:3000/console.js:455:24)" +:+ String newline "" +:+
  "    at EmbeddedConsole.log (http://localhost:3000/console.js:507:47)" +:+ String newline "" +:+
  "    at main (http://localhost:3000/static/js/app.js:12:5)" +:+ String newline "" +:+
  "    at <anonymous>:1:1".

(** *** The search of the click handler

    The head of the [onclick] handler of the constructor: from the target of
    the event it looks for an element that [logs] knows.  The page is given by
    [parentElement] ([None] for [null]) and [logs] by what it associates with
    an element. *)

Inductive Search (node : Type) : Type :=
| Returned                          (* the handler returned inside the loop *)
| LoopLeft (element : option node)  (* the loop ended with this [element] *).
Arguments Returned {node}.
Arguments LoopLeft {node} element.

(** The [do ... while (++attempt <= 5)] loop, with [iterations] rounds left. *)
Fixpoint searchLoop {node : Type} (parentElement : node -> option node)
    (logs : node -> option (list Value)) (iterations : nat) (element : option node)
    : Search node :=
  match iterations with
  | O => LoopLeft element
  | S iterations =>
      match element with
      | None => Returned
      | Some e =>
          match logs e with
          | None => searchLoop parentElement logs iterations (parentElement e)
          | Some _ => LoopLeft element
          end
      end
  end.

(** [attempt] runs from 0 to 5: six rounds.  The result is the [data] the
    handler goes on with, [None] when it returns before. *)
Definition clickedData {node : Type} (parentElement : node -> option node)
    (logs : node -> option (list Value)) (target : node) : option (list Value) :=
  match searchLoop parentElement logs 6 (Some target) with
  | Returned => None
  | LoopLeft None => None
  | LoopLeft (Some e) => logs e
  end.

(** The [k]-th ancestor of an element. *)
Fixpoint ancestor {node : Type} (parentElement : node -> option node) (k : nat) (e : node)
    : option node :=
  match k with
  | O => Some e
  | S k =>
      match parentElement e with
      | Some p => ancestor parentElement k p
      | None => None
      end
  end.

(** *** The visited set during a walk *)

(** Every object whose walk has been entered is in the visited set. *)
Definition walkedAreVisited (s : State) : Prop :=
  forall l, In (EWalk l) (trace s) -> l ∈ visited s.

(** How a computation leaves the state, however it ends: the walked objects
    are still all visited, and nothing has left the visited set. *)
Definition keptBy {A} (s : State) (r : Result A) : Prop :=
  match r with
  | Ok _ s' | Raise _ s' => walkedAreVisited s' /\ visited s ⊆ visited s'
  | OutOfFuel => True
  end.

Definition Keeps {A} (m : M A) : Prop :=
  forall s, walkedAreVisited s -> keptBy s (m s).

(** The same for a computation that is run once [v], if an object, has been
    entered in the visited set. *)
Definition KeepsOnce {A} (v : Value) (m : M A) : Prop :=
  forall s, walkedAreVisited s -> (forall l, v = VRef l -> l ∈ visited s) -> keptBy s (m s).

(** ** Strings: basic facts *)

Lemma append_nil_l (s : string) : "" +:+ s = s.
Proof. reflexivity. Qed.

Lemma append_cons (c : ascii) (a b : string) :
  String c a +:+ b = String c (a +:+ b).
Proof. reflexivity. Qed.

Lemma append_nil_r (s : string) : s +:+ "" = s.
Proof.
  induction s as [|c s IH]; [reflexivity|].
  now rewrite append_cons, IH.
Qed.

Lemma append_assoc (a b c : string) : (a +:+ b) +:+ c = a +:+ (b +:+ c).
Proof.
  induction a as [|x a IH]; [reflexivity|].
  now rewrite !append_cons, IH.
Qed.

Lemma countChar_app (c : ascii) (a b : string) :
  countChar c (a +:+ b) = countChar c a + countChar c b.
Proof.
  induction a as [|x a IH]; [reflexivity|].
  rewrite append_cons. simpl. rewrite IH. lia.
Qed.

Lemma BreaksOnly_app (a b : string) :
  BreaksOnly a -> BreaksOnly b -> BreaksOnly (a +:+ b).
Proof.
  induction 1 as [|c s Hlt Hgt _ IH|s _ IH]; intros Hb.
  - exact Hb.
  - rewrite append_cons. apply breaks_char; auto.
  - rewrite append_assoc. apply breaks_br. auto.
Qed.

(** ** [escapeHtml] *)

Lemma escapeLoop_acc (value result : string) :
  escapeLoop value result = result +:+ escapeString value.
Proof.
  unfold escapeString. revert result.
  induction value as [|c v IH]; intros result; simpl.
  - now rewrite append_nil_r.
  - rewrite append_nil_l, (IH (escapeChar c)), IH. now rewrite append_assoc.
Qed.

Lemma escapeString_cons (c : ascii) (s : string) :
  escapeString (String c s) = escapeChar c +:+ escapeString s.
Proof. unfold escapeString at 1. simpl. apply escapeLoop_acc. Qed.

Lemma escapeString_app (a b : string) :
  escapeString (a +:+ b) = escapeString a +:+ escapeString b.
Proof.
  induction a as [|c a IH]; [reflexivity|].
  now rewrite append_cons, !escapeString_cons, IH, append_assoc.
Qed.

Lemma escapeChar_cases (c : ascii) :
  (c = "<"%char /\ escapeChar c = "&lt;") \/
  (c = ">"%char /\ escapeChar c = "&gt;") \/
  (c = " "%char /\ escapeChar c = "&nbsp;") \/
  (c = newline /\ escapeChar c = "<br />") \/
  (Ascii.eqb c "<" = false /\ Ascii.eqb c ">" = false /\
   Ascii.eqb c newline = false /\ escapeChar c = String c "").
Proof.
  unfold escapeChar.
  destruct (Ascii.eqb c "<") eqn:E1;
    [apply Ascii.eqb_eq in E1; left; split; [exact E1 | reflexivity]|].
  destruct (Ascii.eqb c ">") eqn:E2;
    [apply Ascii.eqb_eq in E2; right; left; split; [exact E2 | reflexivity]|].
  destruct (Ascii.eqb c " ") eqn:E3;
    [apply Ascii.eqb_eq in E3; do 2 right; left; split; [exact E3 | reflexivity]|].
  destruct (Ascii.eqb c newline) eqn:E4;
    [apply Ascii.eqb_eq in E4; do 3 right; left; split; [exact E4 | reflexivity]|].
  do 4 right. repeat split; reflexivity.
Qed.

Lemma escapeChar_breaks (c : ascii) : BreaksOnly (escapeChar c).
Proof.
  destruct (escapeChar_cases c) as [[-> ->]|[[-> ->]|[[-> ->]|[[-> ->]|(H1 & H2 & _ & ->)]]]].
  - repeat (apply breaks_char; [reflexivity | reflexivity |]). constructor.
  - repeat (apply breaks_char; [reflexivity | reflexivity |]). constructor.
  - repeat (apply breaks_char; [reflexivity | reflexivity |]). constructor.
  - apply (breaks_br ""). constructor.
  - apply breaks_char; auto. constructor.
Qed.

Lemma escapeString_breaks (s : string) : BreaksOnly (escapeString s).
Proof.
  induction s as [|c s IH]; [constructor|].
  rewrite escapeString_cons. apply BreaksOnly_app; [apply escapeChar_breaks | exact IH].
Qed.

(** Each newline of the text becomes one line break; nothing else of the
    escaped text has an angle bracket. *)
Lemma escapeString_angles (s : string) :
  countChar "<" (escapeString s) = countChar newline s /\
  countChar ">" (escapeString s) = countChar newline s.
Proof.
  induction s as [|c s [IH1 IH2]]; [split; reflexivity|].
  rewrite escapeString_cons, !countChar_app, IH1, IH2.
  destruct (escapeChar_cases c) as [[-> ->]|[[-> ->]|[[-> ->]|[[-> ->]|(H1 & H2 & H3 & ->)]]]];
    try (split; reflexivity).
  rewrite Ascii.eqb_sym in H1. rewrite Ascii.eqb_sym in H2. rewrite Ascii.eqb_sym in H3.
  cbn [countChar]. rewrite H1, H2, H3. split; reflexivity.
Qed.

(** ** The monad: running a computation *)

Lemma bind_ret {A B} (a : A) (f : A -> M B) (s : State) :
  bind (ret a) f s = f a s.
Proof. reflexivity. Qed.

Lemma mapM_cons {A B} (f : A -> M B) (a : A) (rest : list A) (s : State) :
  mapM f (a :: rest) s =
  match f a s with
  | Ok b s' =>
      match mapM f rest s' with
      | Ok bs s'' => Ok (b :: bs) s''
      | Raise e s'' => Raise e s''
      | OutOfFuel => OutOfFuel
      end
  | Raise e s' => Raise e s'
  | OutOfFuel => OutOfFuel
  end.
Proof. reflexivity. Qed.

Lemma bind_ret_fun {A B} (a : A) (f : A -> M B) : bind (ret a) f = f a.
Proof. reflexivity. Qed.

(** ** Strings are escaped (claim C1) *)

Lemma inspect_string (h : Heap) (fuel : nat) (s : string) (inObject collapsed : bool)
    (st : State) :
  inspect h (S fuel) (VString s) inObject collapsed st =
  Ok (span (if inObject then ClassNames.STRING_OBJECT else ClassNames.STRING)
        (escapeString (shownText s inObject))) st.
Proof. destruct inObject; reflexivity. Qed.

(** C1, as the code has it: a string is rendered as one span around the
    escaped text (the string itself at top level, quoted and trimmed inside a
    composite).  In the escaped text every angle bracket belongs to a line
    break the engine writes for a newline of the text, one per newline, so a
    text without newlines leaves no angle bracket at all; a space becomes a
    non-breaking space entity, so the string <img src=x> is rendered as
    &lt;img&nbsp;src=x&gt;. *)
Theorem C1_string_escaping (h : Heap) (fuel : nat) (s : string)
    (inObject collapsed : bool) (st : State) :
  (exists className,
     inspect h (S fuel) (VString s) inObject collapsed st =
       Ok (span className (escapeString (shownText s inObject))) st) /\
  BreaksOnly (escapeString (shownText s inObject)) /\
  countChar "<" (escapeString (shownText s inObject)) =
    countChar newline (shownText s inObject) /\
  countChar ">" (escapeString (shownText s inObject)) =
    countChar newline (shownText s inObject) /\
  inspect h (S fuel) (VString "<img src=x>") false collapsed st =
    Ok (span "ec-string" "&lt;img&nbsp;src=x&gt;") st.
Proof.
  split; [|split; [|split; [|split]]].
  - eexists. apply inspect_string.
  - apply escapeString_breaks.
  - apply escapeString_angles.
  - apply escapeString_angles.
  - reflexivity.
Qed.

(** C1 as stated fails: the fragment for <img src=x> has no &lt;img src=x&gt;
    in it (the space is an entity), and the fragment for a newline has a raw
    tag inside the span. *)
Lemma C1_counterexample :
  inspect (heapOf []) 1 (VString "<img src=x>") false true initial =
    Ok (span "ec-string" "&lt;img&nbsp;src=x&gt;") initial /\
  occurs "&lt;img src=x&gt;" (span "ec-string" "&lt;img&nbsp;src=x&gt;") = false /\
  inspect (heapOf []) 1 (VString (String newline "")) false true initial =
    Ok (span "ec-string" "<br />") initial /\
  has_char "<" "<br />" = true.
Proof. repeat split; reflexivity. Qed.

(** ** Cycles (claim C4) *)

Lemma inspect_S (h : Heap) (fuel : nat) :
  inspect h (S fuel) = inspectBody h (inspect h fuel) (recursiveInspect h fuel).
Proof. reflexivity. Qed.

Lemma recursiveInspect_S (h : Heap) (fuel : nat) :
  recursiveInspect h (S fuel) = recursiveInspectBody h (inspect h fuel).
Proof. reflexivity. Qed.

Lemma weakSetHas_added (l : loc) (vis : gset loc) (tr : list Event) :
  weakSetHas (VRef l) {| visited := {[l]} ∪ vis; trace := tr |} =
  Ok true {| visited := {[l]} ∪ vis; trace := tr |}.
Proof.
  unfold weakSetHas. simpl. rewrite bool_decide_eq_true_2; [reflexivity | set_solver].
Qed.

(** C4: an object literal [a] whose one property [self] is [a] itself is
    inspected to the end with any fuel of 2 or more, in either mode, and the
    inner occurrence of [a] is shown as the marker [Circular]; [a] is walked
    once, and no getter is called. *)
Theorem C4_self_reference_terminates (h : Heap) (a : loc) (fuel : nat)
    (inObject collapsed : bool) (st : State) :
  h a = literal [("self", DataDesc (VRef a) true)] ->
  inspect h (S (S fuel)) (VRef a) inObject collapsed st =
    Ok (span "ec-object"
          ((if collapsed then COLLAPSED_ARROW else EXPANDED_ARROW) +:+ " " +:+
           "{" +:+ (if collapsed then "" else "<br />") +:+ "self: [Circular]}"))
       {| visited := {[a]} ∪ visited st; trace := trace st ++ [EWalk a] |}.
Proof.
  intros Ha.
  rewrite inspect_S, recursiveInspect_S.
  unfold inspectBody, recursiveInspectBody.
  unfold is_string, is_nullish, is_error, is_regexp, is_set, is_map, is_strictObject,
    is_loseObject, is_array, is_weak, is_weakset, is_weakmap, hasBrand, is_nullish,
    getOwnPropertyDescriptors, getOwnPropertyNames, walked.
  rewrite Ha. destruct st as [vis tr].
  destruct collapsed;
    cbn -[COLLAPSED_ARROW EXPANDED_ARROW String.append span weakSetHas];
    rewrite !Ha; unfold bind;
    cbn -[COLLAPSED_ARROW EXPANDED_ARROW String.append span weakSetHas];
    rewrite weakSetHas_added; reflexivity.
Qed.

Lemma C4_witness :
  inspect (heapOf [(2%positive, literal [("self", DataDesc (VRef 2%positive) true)])])
    2 (VRef 2%positive) false true initial =
  Ok (span "ec-object" (COLLAPSED_ARROW +:+ " {self: [Circular]}"))
     {| visited := {[2%positive]} ∪ ∅; trace := [EWalk 2%positive] |}.
Proof.
  apply (C4_self_reference_terminates
           (heapOf [(2%positive, literal [("self", DataDesc (VRef 2%positive) true)])])
           2%positive 0 false true initial).
  reflexivity.
Defined.

(** ** Getters (claim C2) *)

(** An object literal whose one own property is an accessor under a key other
    than [constructor]: the walk shows the getter marker and calls nothing. *)
Lemma getter_shown_not_called (h : Heap) (l : loc) (key : string) (g : Outcome Value)
    (fuel : nat) (inObject : bool) (st : State) :
  h l = literal [(key, AccessorDesc (Some g) true)] ->
  String.eqb "constructor" key = false ->
  String.eqb key "length" = false ->
  inspect h (S (S fuel)) (VRef l) inObject true st =
    Ok (span "ec-object"
          (COLLAPSED_ARROW +:+ " " +:+ "{" +:+ escapeString key +:+ ": " +:+
           FUNCTION_SIGNATURE_PREFIX +:+ " [Getter]" +:+ "}"))
       {| visited := {[l]} ∪ visited st; trace := trace st ++ [EWalk l] |}.
Proof.
  intros Hl Hc Hlen.
  rewrite inspect_S, recursiveInspect_S.
  unfold inspectBody, recursiveInspectBody.
  unfold is_string, is_nullish, is_error, is_regexp, is_set, is_map, is_strictObject,
    is_loseObject, is_array, is_weak, is_weakset, is_weakmap, hasBrand, is_nullish,
    getOwnPropertyDescriptors, getOwnPropertyNames, walked, Get.
  rewrite Hl. destruct st as [vis tr].
  cbn -[COLLAPSED_ARROW FUNCTION_SIGNATURE_PREFIX String.append span String.eqb escapeString].
  rewrite String.eqb_refl, Hlen.
  unfold bind.
  cbn -[COLLAPSED_ARROW FUNCTION_SIGNATURE_PREFIX String.append span String.eqb escapeString].
  rewrite Hc, String.eqb_refl.
  cbn -[COLLAPSED_ARROW FUNCTION_SIGNATURE_PREFIX String.append span String.eqb escapeString].
  rewrite !append_nil_l, !append_assoc. reflexivity.
Qed.

(** C2 fails on the code for the key [constructor]: after the walk has shown
    the getter marker, [inspect] reads [value.constructor], which calls the
    getter; the error it throws leaves [inspect]. *)
Theorem C2_constructor_getter_is_called (fuel : nat) (inObject collapsed : bool) :
  own (constructorGetterHeap 2%positive) =
    [("constructor", AccessorDesc (Some (Throws (Thrown (VNumber 1)))) true)] /\
  exists st,
    inspect constructorGetterHeap (S (S fuel)) (VRef 2%positive) inObject collapsed initial =
      Raise (Thrown (VNumber 1)) st /\
    trace st = [EWalk 2%positive; EGetter 2%positive "constructor"].
Proof.
  split; [reflexivity|].
  eexists. split; [destruct inObject, collapsed; vm_compute; reflexivity | reflexivity].
Qed.

(** ** Faults of one argument (claim C3) *)

Lemma inspectParam_no_raise (h : Heap) (fuel : nat) (collapsed : bool) (param : Value)
    (s : State) :
  raises (inspectParam h fuel collapsed param s) = false.
Proof.
  unfold inspectParam. destruct (inspectTop h fuel param false collapsed s); reflexivity.
Qed.

Lemma mapM_inspectParam_no_raise (h : Heap) (fuel : nat) (collapsed : bool)
    (data : list Value) (s : State) :
  raises (mapM (inspectParam h fuel collapsed) data s) = false.
Proof.
  revert s. induction data as [|param rest IH]; intros s; [reflexivity|].
  simpl. unfold bind at 1.
  pose proof (inspectParam_no_raise h fuel collapsed param s) as Hp.
  destruct (inspectParam h fuel collapsed param s) as [v s'| |]; try discriminate; [|reflexivity].
  unfold bind at 1. specialize (IH s').
  destruct (mapM (inspectParam h fuel collapsed) rest s'); try discriminate; reflexivity.
Qed.

(** When the first argument is not a string, nothing is raised by the
    formatter: a fault of one argument is caught at that argument. *)
Lemma formatString_isolates_faults (h : Heap) (fuel : nat) (collapsed : bool)
    (data : list Value) (s : State) :
  is_string (nth 0 data VUndefined) = false ->
  raises (_formatString h fuel collapsed data s) = false.
Proof.
  intros Hs. unfold _formatString.
  assert (Hd : forall (m : M (list Value)), m = ret data ->
            raises (bind m (fun data => do parts <- mapM (inspectParam h fuel collapsed) data;
                                        ret (join " " parts)) s) = false).
  { intros m ->. rewrite bind_ret. unfold bind.
    pose proof (mapM_inspectParam_no_raise h fuel collapsed data s) as Hm.
    destruct (mapM (inspectParam h fuel collapsed) data s); try discriminate; reflexivity. }
  apply Hd. destruct (nth 0 data VUndefined); try reflexivity. discriminate.
Qed.

(** The throwing proxy followed by the string ok: the fault marker, then the
    string as usual. *)
Lemma formatString_proxy_then_ok (fuel : nat) (collapsed : bool) :
  exists st,
    _formatString proxyHeap (S (S fuel)) collapsed [VRef 2%positive; VString "ok"] initial =
      Ok ("[Unknown] " +:+ span "ec-string" "ok") st.
Proof. eexists. destruct collapsed; vm_compute; reflexivity. Qed.

(** C3 fails on the code when a placeholder of the template meets an argument
    that cannot be made a string: the substitution runs outside the handler,
    so the error leaves [_formatString] and the logging call. *)
Theorem C3_template_fault_propagates (h : Heap) (fuel : nat) (collapsed : bool)
    (c : EmbeddedConsole) (st : State) :
  _formatString h fuel collapsed [VString "%s"; VSymbol "x"] st =
    Raise (TypeError "Cannot convert a Symbol value to a string") st /\
  log h fuel [VString "%s"; VSymbol "x"] c st =
    Raise (TypeError "Cannot convert a Symbol value to a string") st.
Proof. split; reflexivity. Qed.

(** ** Visited values (claim C5) *)

(** C5 fails on the code for the elements of a set: [a], already in the
    visited set, is walked a second time when it is met as an element of the
    set [a.s], and is not shown as the circular marker there. *)
Theorem C5_visited_reentered_through_set (fuel : nat) :
  exists st,
    inspect setCycleHeap (5 + fuel) (VRef 2%positive) false true initial =
      Ok (span "ec-object"
            (COLLAPSED_ARROW +:+ " {s: " +:+
             span "ec-object"
               ("Set(" +:+ numeric 1 +:+ ") {" +:+
                span "ec-object" (COLLAPSED_ARROW +:+ " {s: [Circular]}") +:+ "}") +:+
             "}")) st /\
    trace st = [EWalk 2%positive; EGetter 3%positive "size"; EWalk 2%positive] /\
    visited st = {[2%positive; 3%positive]}.
Proof.
  eexists. split; [vm_compute; reflexivity | split; [reflexivity | vm_compute; reflexivity]].
Qed.

Lemma inspect_number (h : Heap) (fuel : nat) (n : Z) (inObject collapsed : bool)
    (st : State) :
  inspect h (S fuel) (VNumber n) inObject collapsed st = Ok (numeric n) st.
Proof. reflexivity. Qed.

(** A set that contains itself is never inspected to the end: the set branch
    neither consults nor extends the visited set. *)
Lemma selfSet_runs_forever (h : Heap) (l : loc) (n : Z) (fuel : nat)
    (inObject collapsed : bool) (st : State) :
  h l = setLike [] (nativeSize n) (Returns [VRef l]) ->
  inspect h fuel (VRef l) inObject collapsed st = OutOfFuel.
Proof.
  intros Hl. revert inObject collapsed st.
  induction fuel as [|fuel IH]; intros inObject collapsed st; [reflexivity|].
  rewrite inspect_S. unfold inspectBody.
  unfold is_string, is_nullish, is_error, is_regexp, is_set, hasBrand, Get, keysOf.
  rewrite Hl. cbn -[inspect String.append span].
  unfold bind at 1. cbn -[inspect String.append span].
  unfold bind at 1.
  destruct fuel as [|fuel']; [reflexivity|].
  rewrite inspect_number.
  unfold bind at 1. cbn -[inspect String.append span].
  rewrite IH. reflexivity.
Qed.

Lemma selfSet_example (fuel : nat) :
  inspect selfSetHeap fuel (VRef 3%positive) false true initial = OutOfFuel.
Proof. apply (selfSet_runs_forever selfSetHeap 3%positive 1). reflexivity. Qed.

(** ** The collapsed cap (claim C6) *)

(** C6 fails on the code: of the ten properties the collapsed rendering shows
    four, then the truncation marker; the expanded rendering shows the ten,
    each after a line break. *)
Theorem C6_collapsed_shows_four (fuel : nat) :
  length (own (tenHeap 2%positive)) = 10 /\
  (exists st,
     inspect tenHeap (3 + fuel) (VRef 2%positive) false true initial =
       Ok (span "ec-object"
             (COLLAPSED_ARROW +:+ " {a: " +:+ numeric 1 +:+ ", b: " +:+ numeric 2 +:+
              ", c: " +:+ numeric 3 +:+ ", d: " +:+ numeric 4 +:+ ", " +:+
              COLLAPSED_CHAR +:+ "}")) st) /\
  (exists st,
     inspect tenHeap (3 + fuel) (VRef 2%positive) false false initial =
       Ok (span "ec-object"
             (EXPANDED_ARROW +:+ " {<br />a: " +:+ numeric 1 +:+ ", <br />b: " +:+ numeric 2 +:+
              ", <br />c: " +:+ numeric 3 +:+ ", <br />d: " +:+ numeric 4 +:+
              ", <br />e: " +:+ numeric 5 +:+ ", <br />f: " +:+ numeric 6 +:+
              ", <br />g: " +:+ numeric 7 +:+ ", <br />h: " +:+ numeric 8 +:+
              ", <br />i: " +:+ numeric 9 +:+ ", <br />j: " +:+ numeric 10 +:+ "}")) st).
Proof.
  split; [reflexivity|]. split; eexists; vm_compute; reflexivity.
Qed.

(** ** The template (claims C7 and C10) *)

Lemma concat_primitive (h : Heap) (res : string) (arg : Value) (st : State) :
  primitive arg = true ->
  concat h res arg st = Ok (res +:+ primitiveString arg) st.
Proof. destruct arg as [| |[]| | | | |]; intros Hp; try discriminate; reflexivity. Qed.

Lemma primitive_nth (args : list Value) (idx : nat) :
  forallb primitive args = true -> primitive (nth idx args VUndefined) = true.
Proof.
  revert idx. induction args as [|a args IH]; intros [|idx] Hp; try reflexivity.
  - simpl in *. now apply andb_true_iff in Hp.
  - simpl in *. apply andb_true_iff in Hp. now apply IH.
Qed.

Lemma hd_drop (args : list Value) (idx : nat) :
  hd VUndefined (drop idx args) = nth idx args VUndefined.
Proof.
  revert idx. induction args as [|a args IH]; intros [|idx]; try reflexivity.
  simpl. apply IH.
Qed.

Lemma tl_drop (args : list Value) (idx : nat) :
  tl (drop idx args) = drop (S idx) args.
Proof.
  revert idx. induction args as [|a args IH]; intros [|idx]; try reflexivity.
  simpl. apply IH.
Qed.

Lemma placeholder_not_percent (c : ascii) :
  placeholdersHas c = true -> Ascii.eqb c "%" = false.
Proof.
  intros Hc. destruct (Ascii.eqb c "%") eqn:E; [|reflexivity].
  apply Ascii.eqb_eq in E. subst c. discriminate.
Qed.

Lemma substituted_percent (c : ascii) (rest : string) (args : list Value) :
  substituted (String "%" (String c rest)) args =
  if placeholdersHas c then
    placeholderText c (hd VUndefined args) +:+ substituted rest (tl args)
  else substituted (String c rest) args.
Proof. reflexivity. Qed.

Lemma substituted_other (c : ascii) (rest : string) (args : list Value) :
  Ascii.eqb c "%" = false ->
  substituted (String c rest) args = String c (substituted rest args).
Proof. intros E. simpl. now rewrite E. Qed.

(** The loop of the source looks back at the previous character; read
    forwards it builds [substituted]. *)
Lemma templateLoop_substituted (h : Heap) (first : Value) (args : list Value) :
  forallb primitive args = true ->
  forall (rest : string) (idx : nat) (res : string) (st : State),
    (forall prev, isPercent prev = false ->
       exists idx',
         templateLoop h (first :: args) prev rest idx res st =
           Ok (idx', res +:+ substituted rest (drop idx args)) st) /\
    (exists idx',
       templateLoop h (first :: args) (Some "%"%char) rest idx res st =
         Ok (idx', res +:+ substituted (String "%" rest) (drop idx args)) st).
Proof.
  intros Hprim rest.
  induction rest as [|c rest IH]; intros idx res st.
  - split; [intros prev _|]; exists idx; simpl; now rewrite append_nil_r.
  - split.
    + intros prev Hprev. cbn [templateLoop]. rewrite Hprev, andb_false_r.
      destruct (Ascii.eqb c "%") eqn:Ec.
      * apply Ascii.eqb_eq in Ec. subst c.
        destruct (IH idx res st) as [_ [idx' H2]]. exists idx'. exact H2.
      * destruct (IH idx (res +:+ String c "") st) as [H1 _].
        destruct (H1 (Some c) Ec) as [idx' H]. exists idx'. rewrite H.
        rewrite substituted_other by exact Ec.
        now rewrite append_assoc.
    + cbn [templateLoop isPercent]. rewrite Ascii.eqb_refl, andb_true_r.
      rewrite substituted_percent.
      destruct (placeholdersHas c) eqn:Hc.
      * pose proof (placeholder_not_percent c Hc) as Ec.
        change (nth (S idx) (first :: args) VUndefined) with (nth idx args VUndefined).
        unfold placeholderText. rewrite hd_drop, tl_drop.
        destruct (truthy (nth idx args VUndefined)) eqn:Ht.
        -- unfold bind at 1.
           rewrite concat_primitive by (apply primitive_nth; exact Hprim).
           destruct (IH (S idx) (res +:+ primitiveString (nth idx args VUndefined)) st)
             as [H1 _].
           destruct (H1 (Some c) Ec) as [idx' H]. exists idx'. rewrite H.
           now rewrite append_assoc.
        -- unfold bind at 1. cbn [ret].
           destruct (IH (S idx) (res +:+ "%" +:+ String c "") st) as [H1 _].
           destruct (H1 (Some c) Ec) as [idx' H]. exists idx'. rewrite H.
           now rewrite !append_assoc.
      * destruct (Ascii.eqb c "%") eqn:Ec.
        -- apply Ascii.eqb_eq in Ec. subst c.
           destruct (IH idx res st) as [_ [idx' H2]]. exists idx'. exact H2.
        -- destruct (IH idx (res +:+ String c "") st) as [H1 _].
           destruct (H1 (Some c) Ec) as [idx' H]. exists idx'. rewrite H.
           rewrite substituted_other by exact Ec.
           now rewrite append_assoc.
Qed.

Lemma inspect_value (h : Heap) (fuel : nat) (v : Value) (collapsed : bool) (st : State) :
  match v with VRef _ => false | _ => true end = true ->
  inspect h (S fuel) v false collapsed st = Ok (rendering v) st.
Proof. destruct v as [| |[]| | | | |]; intros Hv; try discriminate; reflexivity. Qed.

Lemma inspectParam_value (h : Heap) (fuel : nat) (v : Value) (collapsed : bool) (st : State) :
  match v with VRef _ => false | _ => true end = true ->
  inspectParam h (S fuel) collapsed v st = Ok (rendering v) (fresh st).
Proof.
  intros Hv. unfold inspectParam, inspectTop.
  now rewrite inspect_value by exact Hv.
Qed.

Lemma primitive_not_ref (v : Value) :
  primitive v = true -> match v with VRef _ => false | _ => true end = true.
Proof. now destruct v. Qed.

Lemma mapM_inspectParam_primitive (h : Heap) (fuel : nat) (collapsed : bool)
    (args : list Value) (st : State) :
  forallb primitive args = true ->
  mapM (inspectParam h (S fuel) collapsed) args (fresh st) =
    Ok (map rendering args) (fresh st).
Proof.
  induction args as [|a args IH]; intros Hp; [reflexivity|].
  simpl in Hp. apply andb_true_iff in Hp as [Ha Hargs].
  rewrite mapM_cons, inspectParam_value by (apply primitive_not_ref; exact Ha).
  change (fresh (fresh st)) with (fresh st).
  now rewrite IH.
Qed.

(** What the formatter returns for a template and primitive arguments. *)
Lemma formatString_template (h : Heap) (fuel : nat) (collapsed : bool)
    (template : string) (args : list Value) (st : State) :
  forallb primitive args = true ->
  _formatString h (S fuel) collapsed (VString template :: args) st =
    Ok (join " " (rendering (VString (substituted template args)) :: map rendering args))
       (fresh st).
Proof.
  intros Hp. unfold _formatString. cbn [nth].
  destruct (templateLoop_substituted h (VString template) args Hp template 0 "" st)
    as [H1 _].
  destruct (H1 None eq_refl) as [idx' H]. clear H1.
  rewrite append_nil_l in H. change (drop 0 args) with args in H.
  unfold bind at 1. unfold bind at 1. rewrite H.
  unfold ret at 1. cbn [snd].
  change (<[0%nat:=VString (substituted template args)]> (VString template :: args))
    with (VString (substituted template args) :: args).
  unfold bind at 1.
  rewrite mapM_cons, inspectParam_value by reflexivity.
  now rewrite mapM_inspectParam_primitive by exact Hp.
Qed.

Lemma join_cons (sep p : string) (parts : list string) :
  exists tail, join sep (p :: parts) = p +:+ tail.
Proof.
  destruct parts as [|q parts].
  - exists "". simpl. now rewrite append_nil_r.
  - exists (sep +:+ join sep (q :: parts)). reflexivity.
Qed.

(** C7, as the code has it: with a template first and trailing arguments
    that are truthy primitive values other than symbols, every recognized
    placeholder is replaced, from left to right, by the string form of the
    next trailing argument, and by the literal placeholder text once the
    arguments have run out; the text so built is rendered by the inspector as
    one top-level string, and this rendering is the first part of the output.
    For the template of the example it is the rendering of the text x is 5,
    which has no percent sign. *)
Theorem C7_template_substitution (h : Heap) (fuel : nat) (collapsed : bool)
    (template : string) (args : list Value) (st : State) :
  forallb primitive args = true ->
  forallb truthy args = true ->
  (exists tail,
     _formatString h (S fuel) collapsed (VString template :: args) st =
       Ok (span "ec-string" (escapeString (substituted template args)) +:+ tail)
          (fresh st)) /\
  substituted "%s is %d" [VString "x"; VNumber 5] = "x is 5" /\
  has_char "%" (substituted "%s is %d" [VString "x"; VNumber 5]) = false.
Proof.
  intros Hp _. split; [|split; reflexivity].
  destruct (join_cons " " (rendering (VString (substituted template args)))
              (map rendering args)) as [tail Ht].
  exists tail. rewrite formatString_template by exact Hp. now rewrite Ht.
Qed.

Lemma C7_witness :
  exists tail,
    _formatString (heapOf []) 1 true [VString "%s is %d"; VString "x"; VNumber 5] initial =
      Ok (span "ec-string" (escapeString "x is 5") +:+ tail) (fresh initial).
Proof.
  destruct (C7_template_substitution (heapOf []) 0 true "%s is %d"
              [VString "x"; VNumber 5] initial eq_refl eq_refl) as [H _].
  exact H.
Defined.

(** C7 as stated fails: the placeholders of the example are replaced by the
    plain texts x and 5 inside one rendered string, not by the renderings of
    the two arguments, and both arguments, though consumed, are appended
    after it. *)
Lemma C7_counterexample :
  _formatString (heapOf []) 1 true [VString "%s is %d"; VString "x"; VNumber 5] initial =
    Ok (span "ec-string" "x&nbsp;is&nbsp;5" +:+ " " +:+
        rendering (VString "x") +:+ " " +:+ rendering (VNumber 5))
       (fresh initial) /\
  occurs (rendering (VString "x")) (span "ec-string" "x&nbsp;is&nbsp;5") = false /\
  occurs (rendering (VNumber 5)) (span "ec-string" "x&nbsp;is&nbsp;5") = false.
Proof. repeat split; reflexivity. Qed.

(** *** Percent signs *)

Lemma has_char_dropPercent (template : string) :
  has_char "%" (dropPercent template) = false.
Proof.
  induction template as [|c rest IH]; [reflexivity|].
  cbn [dropPercent]. destruct (Ascii.eqb c "%") eqn:Ec; [exact IH|].
  cbn [has_char]. rewrite Ascii.eqb_sym, Ec. exact IH.
Qed.

Lemma countChar_percent_escapeString (s : string) :
  countChar "%" (escapeString s) = countChar "%" s.
Proof.
  induction s as [|c s IH]; [reflexivity|].
  rewrite escapeString_cons, countChar_app, IH.
  destruct (escapeChar_cases c) as [[-> ->]|[[-> ->]|[[-> ->]|[[-> ->]|(_ & _ & _ & ->)]]]];
    try reflexivity.
  cbn [countChar]. lia.
Qed.

(** With no argument left every placeholder keeps its percent sign, and no
    other percent sign is kept. *)
Lemma substituted_alone_count (template : string) :
  countChar "%" (substituted template []) = countPlaceholders template /\
  forall c, countChar "%" (substituted (String c template) []) =
            countPlaceholders (String c template).
Proof.
  induction template as [|d rest [IH1 IH2]].
  - split; [reflexivity|]. intros c.
    cbn [substituted countPlaceholders]. rewrite andb_false_r.
    destruct (Ascii.eqb c "%") eqn:Ec; [reflexivity|].
    cbn [countChar]. rewrite Ascii.eqb_sym, Ec. reflexivity.
  - split; [apply IH2|]. intros c.
    destruct (Ascii.eqb c "%") eqn:Ec.
    + apply Ascii.eqb_eq in Ec. subst c. rewrite substituted_percent.
      cbn [countPlaceholders]. rewrite Ascii.eqb_refl. cbn [andb].
      destruct (placeholdersHas d) eqn:Hd.
      * pose proof (placeholder_not_percent d Hd) as Ed.
        rewrite Ed. cbn [andb]. unfold placeholderText. cbn [hd tl truthy].
        rewrite countChar_app, IH1.
        change ("%" +:+ String d "") with (String "%" (String d "")).
        cbn [countChar].
        rewrite Ascii.eqb_refl, (Ascii.eqb_sym "%" d), Ed. reflexivity.
      * rewrite (IH2 d). cbn [countPlaceholders]. reflexivity.
    + rewrite substituted_other by exact Ec.
      cbn [countChar]. rewrite Ascii.eqb_sym, Ec.
      rewrite (IH2 d). cbn [countPlaceholders]. rewrite Ec. reflexivity.
Qed.

(** A template without placeholders: the loop drops its percent signs and
    reads no argument. *)
Lemma templateLoop_no_placeholder (h : Heap) (data : list Value) (rest : string) :
  forall (prev : option ascii) (idx : nat) (res : string) (st : State),
    countPlaceholders rest = 0 ->
    (isPercent prev = true ->
     match rest with String d _ => placeholdersHas d | "" => false end = false) ->
    templateLoop h data prev rest idx res st = Ok (idx, res +:+ dropPercent rest) st.
Proof.
  induction rest as [|c rest IH]; intros prev idx res st Hcount Hprev.
  - simpl. now rewrite append_nil_r.
  - cbn [templateLoop dropPercent]. cbn [countPlaceholders] in Hcount.
    assert (Hcond : placeholdersHas c && isPercent prev = false).
    { destruct (isPercent prev); [|apply andb_false_r].
      rewrite (Hprev eq_refl). reflexivity. }
    rewrite Hcond.
    destruct (Ascii.eqb c "%") eqn:Ec.
    + apply IH.
      * cbn [andb] in Hcount. lia.
      * intros _. cbn [andb] in Hcount.
        destruct rest as [|d rest']; [reflexivity|].
        destruct (placeholdersHas d); [simpl in Hcount; lia | reflexivity].
    + rewrite IH.
      * now rewrite append_assoc.
      * cbn [andb] in Hcount. lia.
      * cbn [isPercent]. rewrite Ec. discriminate.
Qed.

(** C10, as the code has it: a percent sign of the template that is not
    immediately followed by a recognized specifier is left out of the output:
    a template without placeholders is formatted as the same text without its
    percent signs, whatever the other arguments are, and the one argument
    100% done is shown as 100 done.  A percent sign followed by a specifier
    is replaced with it, and comes back in the literal placeholder text when
    there is no argument for it: formatting a template alone leaves as many
    percent signs as the template has placeholders. *)
Theorem C10_percent_signs (h : Heap) (fuel : nat) (collapsed : bool)
    (template : string) (st : State) :
  _formatString h (S fuel) collapsed [VString template] st =
    Ok (span "ec-string" (escapeString (substituted template []))) (fresh st) /\
  countChar "%" (escapeString (substituted template [])) = countPlaceholders template /\
  (forall args n, countPlaceholders template = 0 ->
     has_char "%" (dropPercent template) = false /\
     _formatString h n collapsed (VString template :: args) st =
       (do parts <- mapM (inspectParam h n collapsed) (VString (dropPercent template) :: args);
        ret (join " " parts)) st) /\
  _formatString h (S fuel) collapsed [VString "100% done"] st =
    Ok (span "ec-string" "100&nbsp;done") (fresh st).
Proof.
  split; [|split; [|split]].
  - rewrite formatString_template by reflexivity. reflexivity.
  - rewrite countChar_percent_escapeString. apply substituted_alone_count.
  - intros args n Hcount. split; [apply has_char_dropPercent|].
    unfold _formatString. cbn [nth].
    unfold bind at 1. unfold bind at 1.
    rewrite templateLoop_no_placeholder by (exact Hcount || discriminate).
    reflexivity.
  - reflexivity.
Qed.

Lemma C10_witness :
  has_char "%" (dropPercent "100% done") = false /\
  _formatString (heapOf []) 1 true [VString "100% done"; VNumber 7] initial =
    (do parts <- mapM (inspectParam (heapOf []) 1 true)
                   [VString (dropPercent "100% done"); VNumber 7];
     ret (join " " parts)) initial.
Proof.
  destruct (C10_percent_signs (heapOf []) 0 true "100% done" initial) as (_ & _ & H & _).
  exact (H [VNumber 7] 1 eq_refl).
Defined.

(** C10 as stated fails: the percent sign of a placeholder whose argument is
    missing is in the output. *)
Lemma C10_counterexample :
  _formatString (heapOf []) 1 true [VString "%d"] initial =
    Ok (span "ec-string" "%d") (fresh initial) /\
  has_char "%" (span "ec-string" "%d") = true.
Proof. split; reflexivity. Qed.

(** ** Timers (claim C9) *)

(** A text without percent sign is left as it is by the template loop. *)
Lemma substituted_no_percent (template : string) (args : list Value) :
  has_char "%" template = false -> substituted template args = template.
Proof.
  induction template as [|c rest IH]; intros H; [reflexivity|].
  cbn [has_char] in H. apply orb_false_iff in H as [Hc Hrest].
  rewrite Ascii.eqb_sym in Hc.
  rewrite substituted_other by exact Hc. now rewrite IH.
Qed.

Lemma has_char_app (c : ascii) (a b : string) :
  has_char c (a +:+ b) = has_char c a || has_char c b.
Proof.
  induction a as [|x a IH]; [reflexivity|].
  rewrite append_cons. cbn [has_char]. now rewrite IH, orb_assoc.
Qed.

Lemma warn_string (h : Heap) (fuel : nat) (msg : string) (c : EmbeddedConsole) (st : State) :
  warn h (S fuel) [VString msg] c st =
    Ok (_add c (span "ec-string" (escapeString (substituted msg []))) "ec-warning" "warn"
          [VString msg]) (fresh st).
Proof.
  unfold warn, bind. now rewrite formatString_template by reflexivity.
Qed.

Lemma timeEnd_missing (h : Heap) (fuel : nat) (now : Z) (label : string)
    (c : EmbeddedConsole) (st : State) :
  timers c !! label = None ->
  timeEnd h (S fuel) now (Some label) c st =
    Ok {| timers := timers c; entries := entries c ++ [warningEntry label] |} (fresh st).
Proof.
  intros Hnone. unfold timeEnd. cbn [orDefault]. rewrite Hnone.
  now rewrite warn_string.
Qed.

Lemma timeEnd_running (h : Heap) (fuel : nat) (now p : Z) (label : string)
    (c : EmbeddedConsole) (st : State) :
  timers c !! label = Some p ->
  timeEnd h (S fuel) now (Some label) c st =
    Ok {| timers := delete label (timers c);
          entries := entries c ++ [elapsedEntry label (now - p)] |} (fresh st).
Proof.
  intros Hsome. unfold timeEnd. cbn [orDefault]. rewrite Hsome.
  unfold log, bind. now rewrite formatString_template by reflexivity.
Qed.

(** C9: [time] stores the clock reading under the label, over any earlier
    one, and adds no entry; [timeEnd] for a label without timer adds one
    warning entry whose argument is the message Timer label does not exist,
    and leaves the timers as they are; [timeEnd] for a running timer adds one
    log entry with the label and the elapsed time, and removes the timer, so
    that a second [timeEnd] adds the warning; none of these calls raises. *)
Theorem C9_timer_lifecycle (h : Heap) (fuel : nat) (t0 t1 t2 : Z) (label : string)
    (c : EmbeddedConsole) (st : State) :
  timers (time t0 (Some label) c) !! label = Some t0 /\
  timers (time t1 (Some label) (time t0 (Some label) c)) !! label = Some t1 /\
  entries (time t0 (Some label) c) = entries c /\
  (timers c !! label = None ->
   timeEnd h (S fuel) t1 (Some label) c st =
     Ok {| timers := timers c; entries := entries c ++ [warningEntry label] |}
        (fresh st)) /\
  (forall p, timers c !! label = Some p ->
   timeEnd h (S fuel) t1 (Some label) c st =
     Ok {| timers := delete label (timers c);
           entries := entries c ++ [elapsedEntry label (t1 - p)] |} (fresh st)) /\
  (exists c1 c2,
     timeEnd h (S fuel) t1 (Some label) (time t0 (Some label) c) st = Ok c1 (fresh st) /\
     entries c1 = (entries c ++ [elapsedEntry label (t1 - t0)])%list /\
     timers c1 !! label = None /\
     timeEnd h (S fuel) t2 (Some label) c1 (fresh st) = Ok c2 (fresh st) /\
     entries c2 = (entries c1 ++ [warningEntry label])%list /\
     timers c2 = timers c1) /\
  rawData (warningEntry label) = [VString ("Timer " +:+ label +:+ " does not exist")] /\
  (has_char "%" label = false ->
   innerHTML (warningEntry label) =
     span "ec-string" (escapeString ("Timer " +:+ label +:+ " does not exist"))).
Proof.
  split; [|split; [|split; [|split; [|split; [|split; [|split]]]]]].
  - cbn. apply lookup_insert_eq.
  - cbn. apply lookup_insert_eq.
  - reflexivity.
  - apply timeEnd_missing.
  - intros p. apply timeEnd_running.
  - eexists. eexists.
    split; [apply timeEnd_running; cbn; apply lookup_insert_eq|].
    split; [reflexivity|].
    split; [cbn; apply lookup_delete_eq|].
    split; [apply (timeEnd_missing h fuel t2 label _ (fresh st)); cbn; apply lookup_delete_eq|].
    split; reflexivity.
  - reflexivity.
  - intros Hlabel. unfold warningEntry, missingTimer. cbn [innerHTML].
    rewrite substituted_no_percent; [reflexivity|].
    rewrite !has_char_app, Hlabel. reflexivity.
Qed.

Lemma C9_witness :
  timeEnd (heapOf []) 1 10 (Some "t") emptyConsole initial =
    Ok {| timers := ∅; entries := [warningEntry "t"] |} (fresh initial) /\
  timeEnd (heapOf []) 1 10 (Some "t") (time 3 (Some "t") emptyConsole) initial =
    Ok {| timers := delete "t" (<["t" := 3%Z]> ∅);
          entries := [elapsedEntry "t" (10 - 3)] |} (fresh initial) /\
  innerHTML (warningEntry "t") =
    span "ec-string" (escapeString "Timer t does not exist").
Proof.
  destruct (C9_timer_lifecycle (heapOf []) 0 3 10 11 "t" emptyConsole initial)
    as (_ & _ & _ & Hmissing & _ & _ & _ & Hshown).
  destruct (C9_timer_lifecycle (heapOf []) 0 3 10 11 "t" (time 3 (Some "t") emptyConsole)
              initial) as (_ & _ & _ & _ & Hrunning & _).
  split; [|split].
  - apply Hmissing. reflexivity.
  - apply (Hrunning 3%Z). reflexivity.
  - apply Hshown. reflexivity.
Defined.

(** ** Every fragment the inspector returns is made of the engine's tags *)

Lemma startsWith_cons (a c : ascii) (t s : string) :
  startsWith (String a t) (String c s) = true <-> a = c /\ startsWith t s = true.
Proof.
  cbn [startsWith]. rewrite andb_true_iff, Ascii.eqb_eq. reflexivity.
Qed.

Lemma startsWith_app (t a b : string) :
  startsWith t a = true -> startsWith t (a +:+ b) = true.
Proof.
  revert a. induction t as [|x t IH]; intros a H; [reflexivity|].
  destruct a as [|c a]; [discriminate|].
  rewrite append_cons. apply startsWith_cons in H as [-> H].
  apply startsWith_cons. split; [reflexivity | apply IH; exact H].
Qed.

Lemma tagStarts_app (a b : string) :
  tagStarts a = true -> tagStarts (a +:+ b) = true.
Proof.
  unfold tagStarts. rewrite !existsb_exists.
  intros (tag & Hin & Hp). exists tag. split; [exact Hin | apply startsWith_app; exact Hp].
Qed.

Lemma safe_app (a b : string) :
  safe a = true -> safe b = true -> safe (a +:+ b) = true.
Proof.
  induction a as [|c a IH]; intros Ha Hb; [exact Hb|].
  rewrite append_cons. cbn [safe] in *.
  apply andb_true_iff in Ha as [Hc Ha].
  apply andb_true_iff. split; [|apply IH; assumption].
  destruct (Ascii.eqb c "<"); [|reflexivity].
  rewrite <- append_cons. apply tagStarts_app. exact Hc.
Qed.

Lemma safe_no_angle (s : string) : has_char "<" s = false -> safe s = true.
Proof.
  induction s as [|c s IH]; [reflexivity|].
  cbn [has_char safe]. intros H. apply orb_false_iff in H as [Hc Hs].
  rewrite Ascii.eqb_sym, Hc. cbn [andb]. apply IH. exact Hs.
Qed.

Lemma safe_escapeChar (c : ascii) : safe (escapeChar c) = true.
Proof.
  destruct (escapeChar_cases c) as [[-> ->]|[[-> ->]|[[-> ->]|[[-> ->]|(H1 & _ & _ & ->)]]]];
    try reflexivity.
  cbn [safe]. rewrite H1. reflexivity.
Qed.

Lemma safe_escapeString (s : string) : safe (escapeString s) = true.
Proof.
  induction s as [|c s IH]; [reflexivity|].
  rewrite escapeString_cons. apply safe_app; [apply safe_escapeChar | exact IH].
Qed.

Lemma safe_span (className body : string) :
  engineClass className = true -> safe body = true -> safe (span className body) = true.
Proof.
  unfold engineClass. intros Hc Hb. apply andb_true_iff in Hc as [Hp Hn].
  apply negb_true_iff in Hn.
  unfold span.
  assert (Hopen : safe ("<span class=" +:+ dquote +:+ className) = true).
  { change ("<span class=" +:+ dquote +:+ className)
      with (String "<" ("span class=" +:+ dquote +:+ className)).
    cbn [safe]. rewrite Ascii.eqb_refl.
    apply andb_true_iff. split.
    - unfold tagStarts, engineTags. cbn [existsb]. apply orb_true_iff. left.
      change (String "<" ("span class=" +:+ dquote +:+ className))
        with (("<span class=" +:+ dquote) +:+ className).
      change ("<span class=" +:+ dquote +:+ "ec-")
        with (("<span class=" +:+ dquote) +:+ "ec-").
      generalize ("<span class=" +:+ dquote). intros pre.
      induction pre as [|x pre IH]; [exact Hp|].
      rewrite !append_cons. apply startsWith_cons. split; [reflexivity | exact IH].
    - apply (safe_app ("span class=" +:+ dquote) className); [reflexivity|].
      apply safe_no_angle. exact Hn. }
  replace ("<span class=" +:+ dquote +:+ className +:+ dquote +:+ ">" +:+ body +:+ "</span>")
    with (("<span class=" +:+ dquote +:+ className) +:+
          (dquote +:+ ">" +:+ body +:+ "</span>"))
    by now rewrite !append_assoc.
  apply safe_app; [exact Hopen|].
  repeat apply safe_app; try reflexivity; assumption.
Qed.

Lemma safe_join (sep : string) (parts : list string) :
  safe sep = true -> Forall (fun p => safe p = true) parts -> safe (join sep parts) = true.
Proof.
  intros Hsep. induction 1 as [|p parts Hp _ IH]; [reflexivity|].
  destruct parts as [|q parts]; [exact Hp|].
  change (join sep (p :: q :: parts)) with (p +:+ sep +:+ join sep (q :: parts)).
  repeat apply safe_app; assumption.
Qed.

(** A safe fragment has no [<b>] in it. *)
Lemma safe_no_bold (s : string) : safe s = true -> occurs "<b>" s = false.
Proof.
  induction s as [|c s IH]; intros Hs; [reflexivity|].
  cbn [safe] in Hs. apply andb_true_iff in Hs as [Hc Hs].
  cbn [occurs]. rewrite (IH Hs), orb_false_r.
  destruct (startsWith "<b>" (String c s)) eqn:Hp; [|reflexivity].
  exfalso.
  apply startsWith_cons in Hp as [<- Hp].
  destruct s as [|c2 s]; [discriminate|]. apply startsWith_cons in Hp as [<- Hp].
  destruct s as [|c3 s]; [discriminate|]. apply startsWith_cons in Hp as [<- _].
  discriminate Hc.
Qed.

Lemma bind_inv {A B} (m : M A) (f : A -> M B) (s s' : State) (b : B) :
  bind m f s = Ok b s' -> exists a s1, m s = Ok a s1 /\ f a s1 = Ok b s'.
Proof.
  unfold bind. destruct (m s) as [a s1| |]; try discriminate.
  intros H. now exists a, s1.
Qed.

Lemma Ensures_any {A} (m : M A) : Ensures (fun _ => True) m.
Proof. intros s a s' _. exact I. Qed.

Lemma Ensures_ret {A} (P : A -> Prop) (a : A) : P a -> Ensures P (ret a).
Proof. intros Ha s a' s' H. injection H as <- _. exact Ha. Qed.

Lemma Ensures_bind {A B} (P : A -> Prop) (Q : B -> Prop) (m : M A) (f : A -> M B) :
  Ensures P m -> (forall a, P a -> Ensures Q (f a)) -> Ensures Q (bind m f).
Proof.
  intros Hm Hf s b s' H. apply bind_inv in H as (a & s1 & Ha & Hb).
  exact (Hf a (Hm _ _ _ Ha) _ _ _ Hb).
Qed.

Lemma Ensures_skip {A B} (Q : B -> Prop) (m : M A) (f : A -> M B) :
  (forall a, Ensures Q (f a)) -> Ensures Q (bind m f).
Proof.
  intros Hf. apply (Ensures_bind (fun _ => True)); [apply Ensures_any | auto].
Qed.

Lemma Ensures_mapM {A B} (P : B -> Prop) (f : A -> M B) (l : list A) :
  (forall a, Ensures P (f a)) -> Ensures (Forall P) (mapM f l).
Proof.
  intros Hf. induction l as [|a l IH]; [apply Ensures_ret; constructor|].
  cbn [mapM]. apply (Ensures_bind P); [apply Hf|]. intros b Hb.
  apply (Ensures_bind (Forall P)); [exact IH|]. intros bs Hbs.
  apply Ensures_ret. now constructor.
Qed.

Lemma escapeHtml_safe (h : Heap) (value : Value) : Ensures isSafe (escapeHtml h value).
Proof.
  unfold escapeHtml. apply Ensures_skip. intros s.
  apply Ensures_ret. apply safe_escapeString.
Qed.

Lemma wrapInSpan_escaped (h : Heap) (className : string) (value : Value) :
  engineClass className = true ->
  Ensures isSafe (wrapInSpan h className value true).
Proof.
  intros Hc. unfold wrapInSpan. apply (Ensures_bind isSafe); [apply escapeHtml_safe|].
  intros escaped He. apply Ensures_ret. apply safe_span; assumption.
Qed.

Lemma wrapInSpan_raw (h : Heap) (className fmt : string) :
  engineClass className = true -> safe fmt = true ->
  Ensures isSafe (wrapInSpan h className (VString fmt) false).
Proof.
  intros Hc Hf. unfold wrapInSpan. cbn [ToString]. rewrite bind_ret_fun.
  apply Ensures_ret. apply safe_span; assumption.
Qed.

Ltac safe_parts :=
  unfold isSafe in *;
  repeat (match goal with
          | |- safe (String.append _ _) = true => apply safe_app
          end);
  first [ assumption
        | reflexivity
        | apply safe_escapeString
        | (apply safe_join; [reflexivity | assumption])
        | idtac ].

Lemma safe_arrow (collapsed : bool) :
  safe (if collapsed then COLLAPSED_ARROW else EXPANDED_ARROW) = true.
Proof. destruct collapsed; reflexivity. Qed.

Section Safety.

Variable h : Heap.
Variable insp recur : Value -> bool -> bool -> M string.
Hypothesis insp_safe : forall v i c, Ensures isSafe (insp v i c).
Hypothesis recur_safe : forall v i c, Ensures isSafe (recur v i c).

Lemma forKeys_safe (obj : Value) (isArr collapsed : bool)
    (descriptors : list (string * Descriptor)) (keys : list string) :
  forall (count : nat) (str : string),
    safe str = true ->
    Ensures isSafe (forKeys h insp obj isArr collapsed descriptors keys count str).
Proof.
  induction keys as [|key rest IH]; intros count str Hstr.
  - apply Ensures_ret. exact Hstr.
  - cbn [forKeys].
    destruct (collapsed && (MAX_COLLAPSED_PROPERTIES <=? S count)%nat).
    + apply Ensures_ret. safe_parts.
    + apply (Ensures_bind isSafe).
      * destruct (hasGetter (lookupProp key descriptors)).
        -- apply Ensures_ret. reflexivity.
        -- apply Ensures_skip. intros value. apply Ensures_skip. intros seen.
           destruct seen; [apply Ensures_ret; reflexivity|].
           apply Ensures_skip. intros _. apply insp_safe.
      * intros result Hresult. apply IH.
        assert (Hsep : safe (if (0 <? String.length str)%nat then str +:+ ", " else str)
                       = true).
        { destruct (0 <? String.length str)%nat; safe_parts. }
        assert (Hbr : safe (if negb collapsed
                            then (if (0 <? String.length str)%nat then str +:+ ", " else str)
                                 +:+ "<br />"
                            else (if (0 <? String.length str)%nat then str +:+ ", " else str))
                      = true).
        { destruct (negb collapsed); safe_parts. }
        destruct (negb isArr || setHas key internalProperties); [|safe_parts].
        assert (Hkey : safe (if setHas key internalProperties
                             then "[" +:+ escapeString key +:+ "]"
                             else escapeString key) = true).
        { destruct (setHas key internalProperties); safe_parts. }
        destruct (notEnumerable (lookupProp key descriptors)); safe_parts.
        apply safe_span; [reflexivity | exact Hkey].
Qed.

Lemma recursiveInspectBody_safe (obj : Value) (inObject collapsed : bool) :
  Ensures isSafe (recursiveInspectBody h insp obj inObject collapsed).
Proof.
  unfold recursiveInspectBody.
  destruct (negb (is_loseObject h obj)); [apply insp_safe|].
  apply Ensures_skip. intros _.
  apply (Ensures_bind isSafe); [apply forKeys_safe; reflexivity|].
  intros str Hstr. apply Ensures_ret.
  destruct (negb (is_array h obj)); safe_parts.
Qed.

Lemma inspectBody_safe (value : Value) (inObject collapsed : bool) :
  Ensures isSafe (inspectBody h insp recur value inObject collapsed).
Proof.
  unfold inspectBody.
  destruct (is_string value).
  { destruct inObject; apply wrapInSpan_escaped; reflexivity. }
  destruct (is_nullish value); [apply wrapInSpan_escaped; reflexivity|].
  destruct (is_error h value).
  { apply Ensures_skip. intros stack. apply wrapInSpan_escaped. reflexivity. }
  destruct (is_regexp h value); [apply wrapInSpan_escaped; reflexivity|].
  destruct (is_set h value).
  { apply Ensures_skip. intros size.
    apply (Ensures_bind isSafe); [apply insp_safe|]. intros inspectedSize Hsize.
    apply Ensures_skip. intros keys.
    apply (Ensures_bind (Forall isSafe)); [apply Ensures_mapM; intros k; apply insp_safe|].
    intros parts Hparts.
    apply wrapInSpan_raw; [reflexivity|]. safe_parts. }
  destruct (is_map h value).
  { apply Ensures_skip. intros size.
    apply (Ensures_bind isSafe); [apply insp_safe|]. intros inspectedSize Hsize.
    apply Ensures_skip. intros entries.
    apply (Ensures_bind (Forall isSafe)).
    { apply Ensures_mapM. intros kv.
      apply (Ensures_bind isSafe); [apply insp_safe|]. intros k Hk.
      apply (Ensures_bind isSafe); [apply insp_safe|]. intros v Hv.
      apply Ensures_ret. safe_parts. }
    intros parts Hparts.
    apply wrapInSpan_raw; [reflexivity|]. safe_parts. }
  destruct (is_strictObject h value).
  { apply (Ensures_bind isSafe).
    { destruct (is_weak h value); [apply escapeHtml_safe|].
      apply Ensures_skip. intros _. apply recur_safe. }
    intros result Hresult.
    apply Ensures_skip. intros valueConstructor.
    apply (Ensures_bind isSafe).
    { destruct (truthy valueConstructor && negb (isObjectCtor valueConstructor)).
      - apply Ensures_skip. intros name.
        apply (Ensures_bind isSafe); [apply insp_safe|]. intros inspectedName Hname.
        apply Ensures_ret. pose proof (safe_arrow collapsed). safe_parts.
      - apply Ensures_ret. pose proof (safe_arrow collapsed). safe_parts. }
    intros prefix Hprefix. apply wrapInSpan_raw; [reflexivity|]. safe_parts. }
  destruct (is_array h value).
  { apply (Ensures_bind isSafe).
    { apply Ensures_skip. intros _. apply recur_safe. }
    intros result Hresult.
    apply Ensures_skip. intros len.
    apply (Ensures_bind isSafe).
    { destruct (atLeast2 len).
      - apply (Ensures_bind isSafe); [apply insp_safe|]. intros inspectedLength Hlen.
        apply Ensures_ret. pose proof (safe_arrow collapsed). safe_parts.
      - apply Ensures_ret. pose proof (safe_arrow collapsed). safe_parts. }
    intros prefix Hprefix. apply wrapInSpan_raw; [reflexivity|]. safe_parts. }
  destruct (is_function h value).
  { apply Ensures_skip. intros name.
    destruct (truthy name); [|apply wrapInSpan_escaped; reflexivity].
    apply Ensures_skip. intros val. apply Ensures_skip. intros val'.
    apply (Ensures_bind isSafe); [apply wrapInSpan_escaped; reflexivity|].
    intros wrapped Hwrapped. apply Ensures_ret. safe_parts. }
  destruct (is_number value || is_bool value); [apply wrapInSpan_escaped; reflexivity|].
  destruct (is_bigint value).
  { apply Ensures_skip. intros s. apply wrapInSpan_escaped. reflexivity. }
  apply wrapInSpan_escaped. reflexivity.
Qed.

End Safety.

(** Whatever [inspect] and [recursiveInspect] return, for any value on any
    heap, is markup in which every [<] starts a tag of the engine. *)
Lemma inspect_safe (h : Heap) (fuel : nat) :
  (forall v i c, Ensures isSafe (inspect h fuel v i c)) /\
  (forall v i c, Ensures isSafe (recursiveInspect h fuel v i c)).
Proof.
  induction fuel as [|fuel [IHi IHr]].
  - split; intros v i c s out s' H; discriminate H.
  - split; intros v i c.
    + rewrite inspect_S. apply inspectBody_safe; assumption.
    + rewrite recursiveInspect_S. apply recursiveInspectBody_safe; assumption.
Qed.

(** ** The size of a set or a map (claim C8) *)

Lemma set_or_map_branch (h : Heap) (fuel : nat) (value : Value)
    (inObject collapsed : bool) :
  is_set h value = true \/ is_map h value = true ->
  inspect h (S fuel) value inObject collapsed =
    do size <- Get h value "size";
    do inspectedSize <- inspect h fuel size true true;
    if is_set h value then
      do keys <- keysOf h value;
      do parts <- mapM (fun k => inspect h fuel k false true) keys;
      wrapInSpan h ClassNames.SET
        (VString (("Set(" +:+ inspectedSize +:+ ")") +:+ " {" +:+ join ", " parts +:+ "}")) false
    else
      do entries <- entriesOf h value;
      do parts <- mapM (fun kv =>
                    do k <- inspect h fuel (fst kv) true true;
                    do v <- inspect h fuel (snd kv) true true;
                    ret (k +:+ " => " +:+ v)) entries;
      wrapInSpan h ClassNames.MAP
        (VString (("Map(" +:+ inspectedSize +:+ ")") +:+ " {" +:+ join ", " parts +:+ "}")) false.
Proof.
  intros Hkind. rewrite inspect_S. unfold inspectBody.
  destruct value as [| | | | | | |l];
    try (destruct Hkind as [Hk|Hk]; discriminate Hk).
  unfold is_string, is_nullish, is_error, is_regexp, is_set, is_map, hasBrand in *.
  destruct (brand (h l)); try (destruct Hkind as [Hk|Hk]; discriminate Hk); reflexivity.
Qed.

Lemma mapM_inspect_values (h : Heap) (fuel : nat) (ks : list Value) (st : State) :
  forallb (fun k => match k with VRef _ => false | _ => true end) ks = true ->
  mapM (fun k => inspect h (S fuel) k false true) ks st = Ok (map rendering ks) st.
Proof.
  induction ks as [|k ks IH]; intros Hks; [reflexivity|].
  cbn [forallb] in Hks. apply andb_true_iff in Hks as [Hk Hks].
  rewrite mapM_cons, inspect_value by exact Hk. now rewrite IH.
Qed.

(** C8: for every set-like or map-like value, whatever a read of [size]
    gives is handed to the inspector (in nested mode) and its rendering is
    what the prefix holds; whenever the inspection returns, every [<] of the
    fragment starts a tag of the engine, so that no [<b>] is in it.  For a
    set-like object whose [size] reads as a string and whose elements are not
    objects, the inspection returns, with the escaped, quoted string in the
    prefix. *)
Theorem C8_size_is_inspected (h : Heap) (fuel : nat) (value : Value)
    (inObject collapsed : bool) (st : State) :
  (is_set h value = true \/ is_map h value = true ->
   forall out st',
     inspect h (S fuel) value inObject collapsed st = Ok out st' ->
     exists size s1 inspectedSize s2 rest,
       Get h value "size" st = Ok size s1 /\
       inspect h fuel size true true s1 = Ok inspectedSize s2 /\
       out = span "ec-object"
               ((if is_set h value then "Set(" else "Map(") +:+ inspectedSize +:+
                ") {" +:+ rest +:+ "}") /\
       safe out = true /\ occurs "<b>" out = false) /\
  (forall s s1 ks,
     is_set h value = true ->
     Get h value "size" st = Ok (VString s) s1 ->
     keysOf h value s1 = Ok ks s1 ->
     forallb (fun k => match k with VRef _ => false | _ => true end) ks = true ->
     inspect h (S (S fuel)) value inObject collapsed st =
       Ok (span "ec-object"
             ("Set(" +:+
              span "ec-regexp" (escapeString (dquote +:+ trimString s 100 +:+ dquote)) +:+
              ") {" +:+ join ", " (map rendering ks) +:+ "}"))
          s1).
Proof.
  split.
  - intros Hkind out st' Hout.
    assert (Hsafe : safe out = true).
    { destruct (inspect_safe h (S fuel)) as [Hi _]. exact (Hi _ _ _ _ _ _ Hout). }
    rewrite (set_or_map_branch h fuel value inObject collapsed Hkind) in Hout.
    apply bind_inv in Hout as (size & s1 & Hsize & Hout).
    apply bind_inv in Hout as (inspectedSize & s2 & Hinspected & Hout).
    exists size, s1, inspectedSize, s2.
    destruct (is_set h value).
    + apply bind_inv in Hout as (keys & s3 & _ & Hout).
      apply bind_inv in Hout as (parts & s4 & _ & Hout).
      exists (join ", " parts).
      injection Hout as <- _.
      repeat split; try assumption.
      * unfold ClassNames.SET. now rewrite !append_assoc.
      * unfold ClassNames.SET in Hsafe. apply safe_no_bold. exact Hsafe.
    + apply bind_inv in Hout as (entries & s3 & _ & Hout).
      apply bind_inv in Hout as (parts & s4 & _ & Hout).
      exists (join ", " parts).
      injection Hout as <- _.
      repeat split; try assumption.
      * unfold ClassNames.MAP. now rewrite !append_assoc.
      * apply safe_no_bold. exact Hsafe.
  - intros s s1 ks Hset Hsize Hkeys Hks.
    rewrite set_or_map_branch by (left; exact Hset).
    rewrite Hset.
    unfold bind at 1. rewrite Hsize.
    unfold bind at 1. rewrite inspect_string.
    unfold bind at 1. rewrite Hkeys.
    unfold bind at 1. rewrite mapM_inspect_values by exact Hks.
    unfold wrapInSpan. cbn [ToString]. rewrite bind_ret. unfold ret.
    unfold ClassNames.SET, ClassNames.STRING_OBJECT, shownText.
    now rewrite !append_assoc.
Qed.

Lemma C8_witness :
  inspect hostileSizeHeap 2 (VRef 3%positive) false true initial =
    Ok (span "ec-object"
          ("Set(" +:+
           span "ec-regexp"
             (escapeString (dquote +:+ trimString "<b>x</b>" 100 +:+ dquote)) +:+
           ") {" +:+ join ", " (map rendering []) +:+ "}"))
       {| visited := ∅; trace := [EGetter 3%positive "size"] |} /\
  occurs "<b>"
    (span "ec-object"
       ("Set(" +:+
        span "ec-regexp" (escapeString (dquote +:+ trimString "<b>x</b>" 100 +:+ dquote)) +:+
        ") {" +:+ join ", " (map rendering []) +:+ "}")) = false.
Proof.
  destruct (C8_size_is_inspected hostileSizeHeap 0 (VRef 3%positive) false true initial)
    as [_ Hhostile].
  destruct (C8_size_is_inspected hostileSizeHeap 1 (VRef 3%positive) false true initial)
    as [Hshape _].
  pose proof (Hhostile "<b>x</b>" {| visited := ∅; trace := [EGetter 3%positive "size"] |}
                [] eq_refl eq_refl eq_refl eq_refl) as Hrun.
  split; [exact Hrun|].
  destruct (Hshape (or_introl eq_refl) _ _ Hrun) as (_ & _ & _ & _ & _ & _ & _ & _ & _ & Hb).
  exact Hb.
Defined.

(** * Further properties of the code *)

(** ** [trimString] *)

Lemma substring_all (s : string) (n : nat) :
  String.length s <= n -> String.substring 0 n s = s.
Proof.
  revert n. induction s as [|c s IH]; intros [|n] Hn; try reflexivity.
  - simpl in Hn. lia.
  - simpl in *. rewrite IH; [reflexivity | lia].
Qed.

Lemma substring_length (s : string) (n : nat) :
  String.length (String.substring 0 n s) = Nat.min n (String.length s).
Proof.
  revert n. induction s as [|c s IH]; intros [|n]; try reflexivity.
  simpl. now rewrite IH.
Qed.

Lemma length_append (a b : string) :
  String.length (a +:+ b) = String.length a + String.length b.
Proof.
  induction a as [|c a IH]; [reflexivity|].
  rewrite append_cons. simpl. now rewrite IH.
Qed.

(** X1: [trimString]: a string of at most [maxLen] units is returned as it is; a
    longer one is cut to its first [maxLen] units, followed by the ellipsis;
    so the result is never longer than [maxLen] units and the ellipsis. *)
Theorem trimString_bounds (str : string) (maxLen : nat) :
  (String.length str <= maxLen -> trimString str maxLen = str) /\
  (maxLen < String.length str ->
   trimString str maxLen = String.substring 0 maxLen str +:+ COLLAPSED_CHAR /\
   String.length (String.substring 0 maxLen str) = maxLen) /\
  String.length (trimString str maxLen) <= maxLen + String.length COLLAPSED_CHAR.
Proof.
  unfold trimString. split; [|split].
  - intros Hle. rewrite Nat.min_l by exact Hle.
    destruct (Nat.ltb_spec maxLen (String.length str)) as [Hlt|_]; [lia|].
    now rewrite append_nil_r, substring_all.
  - intros Hlt. rewrite Nat.min_r by lia.
    destruct (Nat.ltb_spec maxLen (String.length str)) as [_|Hge]; [|lia].
    split; [reflexivity|]. rewrite substring_length. lia.
  - rewrite length_append, substring_length.
    destruct (maxLen <? String.length str)%nat; simpl; lia.
Qed.

Lemma trimString_bounds_witness :
  trimString "abc" 5 = "abc" /\
  trimString "abcdefgh" 5 = "abcde" +:+ COLLAPSED_CHAR.
Proof.
  destruct (trimString_bounds "abc" 5) as [Hshort _].
  destruct (trimString_bounds "abcdefgh" 5) as (_ & Hlong & _).
  split.
  - apply Hshort. simpl. lia.
  - apply Hlong. simpl. lia.
Defined.

(** ** No foreign tag in what the inspector and the formatter return *)

Lemma startsWith_both (a b s : string) :
  startsWith a s = true -> startsWith b s = true ->
  startsWith a b = true \/ startsWith b a = true.
Proof.
  revert b s. induction a as [|x a IH]; intros b s Ha Hb; [left; reflexivity|].
  destruct b as [|y b]; [right; reflexivity|].
  destruct s as [|c s]; [discriminate|].
  apply startsWith_cons in Ha as [-> Ha]. apply startsWith_cons in Hb as [-> Hb].
  destruct (IH b s Ha Hb) as [H|H]; [left | right];
    apply startsWith_cons; split; auto.
Qed.

Lemma safe_no_clash (needle s : string) :
  startsWith "<" needle = true -> clashes needle = true ->
  safe s = true -> occurs needle s = false.
Proof.
  intros Hlt Hclash. induction s as [|c s IH]; intros Hs.
  - destruct needle as [|x needle]; [discriminate | reflexivity].
  - cbn [safe] in Hs. apply andb_true_iff in Hs as [Hc Hs].
    cbn [occurs]. rewrite (IH Hs), orb_false_r.
    destruct (startsWith needle (String c s)) eqn:Hn; [|reflexivity].
    exfalso.
    destruct needle as [|x needle]; [discriminate|].
    apply startsWith_cons in Hlt as [<- _].
    pose proof Hn as Hn'. apply startsWith_cons in Hn' as [<- _].
    rewrite Ascii.eqb_refl in Hc.
    unfold tagStarts in Hc. apply existsb_exists in Hc as (tag & Hin & Htag).
    unfold clashes in Hclash. rewrite forallb_forall in Hclash.
    specialize (Hclash tag Hin). apply andb_true_iff in Hclash as [H1 H2].
    apply negb_true_iff in H1. apply negb_true_iff in H2.
    destruct (startsWith_both tag (String "<" needle) _ Htag Hn) as [H|H]; congruence.
Qed.

Lemma inspectParam_safe (h : Heap) (fuel : nat) (collapsed : bool) (param : Value) :
  Ensures isSafe (inspectParam h fuel collapsed param).
Proof.
  intros s out s' H. unfold inspectParam, inspectTop in H.
  destruct (inspect h fuel param false collapsed {| visited := ∅; trace := trace s |})
    as [v s1|e s1|] eqn:E; try discriminate.
  - injection H as <- _. destruct (inspect_safe h fuel) as [Hi _]. exact (Hi _ _ _ _ _ _ E).
  - injection H as <- _. reflexivity.
Qed.

Lemma formatString_safe (h : Heap) (fuel : nat) (collapsed : bool) (data : list Value) :
  Ensures isSafe (_formatString h fuel collapsed data).
Proof.
  unfold _formatString. apply Ensures_skip. intros data'.
  apply (Ensures_bind (Forall isSafe)).
  - apply Ensures_mapM. intros param. apply inspectParam_safe.
  - intros parts Hparts. apply Ensures_ret. apply safe_join; [reflexivity | exact Hparts].
Qed.

(** X3: Whatever [inspect] returns, for any value on any heap and in any mode, a
    [<] in it starts a tag of the engine (the opening of a span of one of its
    classes, the closing of a span, a line break): a text that starts with
    [<] and cannot be read along one of these tags, such as the opening of a
    script or image element, occurs nowhere in it. *)
Theorem inspect_no_foreign_tag (h : Heap) (fuel : nat) (value : Value)
    (inObject collapsed : bool) (st st' : State) (out needle : string) :
  inspect h fuel value inObject collapsed st = Ok out st' ->
  startsWith "<" needle = true -> clashes needle = true ->
  safe out = true /\ occurs needle out = false.
Proof.
  intros Hout Hlt Hclash.
  assert (Hsafe : safe out = true).
  { destruct (inspect_safe h fuel) as [Hi _]. exact (Hi _ _ _ _ _ _ Hout). }
  split; [exact Hsafe | now apply safe_no_clash].
Qed.

Lemma inspect_no_foreign_tag_witness :
  occurs "<script"
    (span "ec-object"
       (COLLAPSED_ARROW +:+ " {s: " +:+
        span "ec-object"
          ("Set(" +:+ numeric 1 +:+ ") {" +:+
           span "ec-object" (COLLAPSED_ARROW +:+ " {s: [Circular]}") +:+ "}") +:+
        "}")) = false.
Proof.
  refine (proj2 (inspect_no_foreign_tag setCycleHeap 5 (VRef 2%positive) false true
                   initial _ _ "<script" _ eq_refl eq_refl)).
  vm_compute. reflexivity.
Defined.

(** X4: What a logging call stores as the markup of its entry has no foreign tag
    either, whatever the arguments (the template and the fault marker
    included): [log] adds one entry after the earlier ones, with this markup
    and the arguments as they were passed, and leaves the timers alone. *)
Theorem log_entry_markup (h : Heap) (fuel : nat) (data : list Value)
    (c c' : EmbeddedConsole) (st st' : State) (needle : string) :
  log h fuel data c st = Ok c' st' ->
  startsWith "<" needle = true -> clashes needle = true ->
  exists html,
    _formatString h fuel true data st = Ok html st' /\
    entries c' =
      (entries c ++ [{| logLevel := "ec-log"; innerHTML := html; fn := "log";
                        rawData := data |}])%list /\
    timers c' = timers c /\
    safe html = true /\ occurs needle html = false.
Proof.
  intros Hlog Hlt Hclash. unfold log in Hlog.
  apply bind_inv in Hlog as (html & s1 & Hfmt & Hret).
  injection Hret as <- <-.
  exists html.
  assert (Hsafe : safe html = true) by exact (formatString_safe h fuel true data _ _ _ Hfmt).
  repeat split; try assumption; try reflexivity.
  now apply safe_no_clash.
Qed.

Lemma log_entry_markup_witness :
  exists html,
    _formatString (heapOf []) 1 true [VString "<img src=x onerror=alert(1)>"] initial =
      Ok html (fresh initial) /\
    occurs "<img" html = false.
Proof.
  destruct (log_entry_markup (heapOf []) 1 [VString "<img src=x onerror=alert(1)>"]
              emptyConsole
              (_add emptyConsole
                 (span "ec-string" "&lt;img&nbsp;src=x&nbsp;onerror=alert(1)&gt;")
                 "ec-log" "log" [VString "<img src=x onerror=alert(1)>"])
              initial (fresh initial) "<img" eq_refl eq_refl eq_refl)
    as (html & Hfmt & _ & _ & _ & Hno).
  exists html. split; assumption.
Defined.

(** ** A Proxy whose reads throw *)

Lemma Ensures_never {A B} (Q : B -> Prop) (m : M A) (f : A -> M B) :
  Ensures (fun _ => False) m -> Ensures Q (bind m f).
Proof. intros Hm. apply (Ensures_bind (fun _ => False)); [exact Hm | intros a []]. Qed.

Lemma Get_trapped (h : Heap) (l : loc) (e : Exn) (key : string) :
  getTrap (h l) = Some e -> Ensures (fun _ => False) (Get h (VRef l) key).
Proof. intros Ht s a s' H. unfold Get in H. rewrite Ht in H. discriminate H. Qed.

Lemma nativeString_trapped (h : Heap) (l : loc) (e : Exn) :
  getTrap (h l) = Some e -> Ensures (fun _ => False) (nativeString h (VRef l)).
Proof.
  intros Ht s a s' H. unfold nativeString, ToString, objectToString in H.
  rewrite Ht in H. discriminate H.
Qed.

Lemma wrapInSpan_trapped (h : Heap) (l : loc) (e : Exn) (className : string) :
  getTrap (h l) = Some e ->
  Ensures (fun _ => False) (wrapInSpan h className (VRef l) true).
Proof.
  intros Ht. unfold wrapInSpan, escapeHtml.
  apply Ensures_never. apply Ensures_never. now apply (nativeString_trapped h l e).
Qed.

Lemma inspect_trapped (h : Heap) (l : loc) (e : Exn) (fuel : nat)
    (inObject collapsed : bool) :
  getTrap (h l) = Some e ->
  Ensures (fun _ => False) (inspect h fuel (VRef l) inObject collapsed).
Proof.
  intros Ht. destruct fuel as [|fuel]; [intros s a s' H; discriminate H|].
  rewrite inspect_S. unfold inspectBody.
  cbn [is_string is_nullish].
  destruct (is_error h (VRef l)).
  { apply Ensures_never. now apply (Get_trapped h l e). }
  destruct (is_regexp h (VRef l)); [now apply (wrapInSpan_trapped h l e)|].
  destruct (is_set h (VRef l)).
  { apply Ensures_never. now apply (Get_trapped h l e). }
  destruct (is_map h (VRef l)).
  { apply Ensures_never. now apply (Get_trapped h l e). }
  destruct (is_strictObject h (VRef l)).
  { apply Ensures_skip. intros result. apply Ensures_never. now apply (Get_trapped h l e). }
  destruct (is_array h (VRef l)).
  { apply Ensures_skip. intros result. apply Ensures_never. now apply (Get_trapped h l e). }
  destruct (is_function h (VRef l)).
  { apply Ensures_never. now apply (Get_trapped h l e). }
  cbn [is_number is_bool is_bigint orb].
  now apply (wrapInSpan_trapped h l e).
Qed.

(** X5: An object behind a Proxy whose [get] trap throws is never rendered by
    [inspect], whatever kind of object it is and whatever it holds; as an
    argument of the formatter it is shown as the fault marker whenever its
    inspection ends. *)
Theorem trapped_proxy_is_unknown (h : Heap) (l : loc) (e : Exn) (fuel : nat)
    (inObject collapsed : bool) (st : State) :
  getTrap (h l) = Some e ->
  (forall out st', inspect h fuel (VRef l) inObject collapsed st <> Ok out st') /\
  (forall out st', inspectParam h fuel collapsed (VRef l) st = Ok out st' ->
                   out = "[Unknown]").
Proof.
  intros Ht. split.
  - intros out st' H. exact (inspect_trapped h l e fuel inObject collapsed Ht _ _ _ H).
  - intros out st' H. unfold inspectParam, inspectTop in H.
    destruct (inspect h fuel (VRef l) false collapsed {| visited := ∅; trace := trace st |})
      as [v s1|e' s1|] eqn:E; try discriminate.
    + destruct (inspect_trapped h l e fuel false collapsed Ht _ _ _ E).
    + now injection H as <- _.
Qed.

Lemma trapped_proxy_is_unknown_witness :
  inspectParam proxyHeap 2 true (VRef 2%positive) initial =
    Ok "[Unknown]" {| visited := {[2%positive]} ∪ ∅; trace := [EWalk 2%positive] |}.
Proof.
  assert (H : exists out st',
             inspectParam proxyHeap 2 true (VRef 2%positive) initial = Ok out st' /\
             st' = {| visited := {[2%positive]} ∪ ∅; trace := [EWalk 2%positive] |}).
  { eexists. eexists. split; vm_compute; reflexivity. }
  destruct H as (out & st' & Hrun & ->).
  destruct (trapped_proxy_is_unknown proxyHeap 2%positive (Thrown (VNumber 1)) 2 false true
              initial eq_refl) as [_ Hunknown].
  rewrite Hrun. now rewrite (Hunknown _ _ Hrun).
Defined.

(** ** Weak collections *)



(** ** The collapsed walk stops before the fifth property *)

Lemma bind_assoc {A B C} (m : M A) (f : A -> M B) (g : B -> M C) (s : State) :
  bind (bind m f) g s = bind m (fun a => bind (f a) g) s.
Proof. unfold bind. destruct (m s); reflexivity. Qed.

Lemma bind_ext {A B} (m : M A) (f g : A -> M B) (s : State) :
  (forall a s', f a s' = g a s') -> bind m f s = bind m g s.
Proof. intros H. unfold bind. destruct (m s); auto. Qed.

Lemma forKeys_collapsed_cut (h : Heap) (insp : Value -> bool -> bool -> M string)
    (obj : Value) (isArr : bool) (descriptors : list (string * Descriptor))
    (ks : list string) (k : string) (rest : list string) :
  forall (count : nat) (str : string) (st : State),
    count + length ks = 4 ->
    forKeys h insp obj isArr true descriptors (ks ++ k :: rest) count str st =
    (do s <- forKeys h insp obj isArr true descriptors ks count str;
     ret (s +:+ ", " +:+ COLLAPSED_CHAR)) st.
Proof.
  induction ks as [|k0 ks IH]; intros count str st Hcount.
  - simpl in Hcount. rewrite Nat.add_0_r in Hcount. subst count. reflexivity.
  - cbn [length] in Hcount.
    change ((k0 :: ks) ++ k :: rest)%list with (k0 :: (ks ++ k :: rest))%list.
    cbn [forKeys].
    assert (Hcond : (MAX_COLLAPSED_PROPERTIES <=? S count)%nat = false).
    { apply Nat.leb_gt. unfold MAX_COLLAPSED_PROPERTIES. lia. }
    rewrite Hcond. cbn [andb].
    rewrite bind_assoc. apply bind_ext. intros result s'.
    apply IH. lia.
Qed.

(** X8: In collapsed mode the walk of an object with five or more own properties
    handles the first four keys only and then writes the truncation marker:
    the fifth and later properties are neither read nor inspected, however
    many there are and whatever they hold. *)
Theorem collapsed_walk_reads_four (h : Heap) (fuel : nat) (l : loc) (inObject : bool)
    (st : State) :
  callable (h l) = false ->
  5 <= length (own (h l)) ->
  recursiveInspect h (S fuel) (VRef l) inObject true st =
    (run emit (EWalk l);
     do str <- forKeys h (inspect h fuel) (VRef l) (isArray (h l)) true (own (h l))
                 (take 4 (map fst (own (h l)))) 0 "";
     ret (if negb (isArray (h l))
          then "{" +:+ (str +:+ ", " +:+ COLLAPSED_CHAR) +:+ "}"
          else "[" +:+ (str +:+ ", " +:+ COLLAPSED_CHAR) +:+ "]")) st.
Proof.
  intros Hcall Hlen.
  rewrite recursiveInspect_S. unfold recursiveInspectBody.
  unfold is_loseObject, is_nullish, is_array, getOwnPropertyDescriptors,
    getOwnPropertyNames, walked.
  rewrite Hcall. cbn [negb andb].
  apply bind_ext. intros _ s'.
  assert (Hkeys : exists k rest,
            map fst (own (h l)) = (take 4 (map fst (own (h l))) ++ k :: rest)%list /\
            length (take 4 (map fst (own (h l)))) = 4).
  { destruct (own (h l)) as [|p1 [|p2 [|p3 [|p4 [|p5 ps]]]]]; simpl in Hlen; try lia.
    exists (fst p5), (map fst ps). split; reflexivity. }
  destruct Hkeys as (k & rest & Hsplit & Hfour).
  rewrite Hsplit at 1.
  unfold bind at 1.
  rewrite forKeys_collapsed_cut by (rewrite Hfour; reflexivity).
  unfold bind.
  destruct (forKeys h (inspect h fuel) (VRef l) (isArray (h l)) true (own (h l))
              (take 4 (map fst (own (h l)))) 0 "" s'); reflexivity.
Qed.

Lemma collapsed_walk_reads_four_witness :
  recursiveInspect tenHeap 2 (VRef 2%positive) false true initial =
    (run emit (EWalk 2%positive);
     do str <- forKeys tenHeap (inspect tenHeap 1) (VRef 2%positive) false true tenProperties
                 ["a"; "b"; "c"; "d"] 0 "";
     ret ("{" +:+ (str +:+ ", " +:+ COLLAPSED_CHAR) +:+ "}")) initial.
Proof.
  apply (collapsed_walk_reads_four tenHeap 1 2%positive false initial).
  - reflexivity.
  - simpl. lia.
Defined.

(** ** Own accessors are shown, not called *)

Lemma lookupProp_getter (ds : list (string * Descriptor)) (key : string) :
  Forall (fun kd => hasGetter (Some (snd kd)) = true) ds ->
  In key (map fst ds) ->
  hasGetter (lookupProp key ds) = true.
Proof.
  induction 1 as [|[k d] ds Hd _ IH]; intros Hin; [destruct Hin|].
  cbn [lookupProp]. destruct (String.eqb key k) eqn:E; [exact Hd|].
  apply IH. destruct Hin as [Hk|Hin]; [|exact Hin].
  simpl in Hk. subst k. rewrite String.eqb_refl in E. discriminate.
Qed.

Lemma forKeys_getters (h : Heap) (insp : Value -> bool -> bool -> M string)
    (obj : Value) (isArr collapsed : bool) (ds : list (string * Descriptor))
    (keys : list string) :
  Forall (fun kd => hasGetter (Some (snd kd)) = true) ds ->
  incl keys (map fst ds) ->
  forall (count : nat) (str : string) (s : State),
    exists out, forKeys h insp obj isArr collapsed ds keys count str s = Ok out s.
Proof.
  intros Hds. induction keys as [|key rest IH]; intros Hincl count str s.
  - exists str. reflexivity.
  - cbn [forKeys].
    destruct (collapsed && (MAX_COLLAPSED_PROPERTIES <=? S count)%nat);
      [eexists; reflexivity|].
    rewrite (lookupProp_getter ds key Hds) by (apply Hincl; left; reflexivity).
    rewrite bind_ret.
    apply IH. intros k Hk. apply Hincl. right. exact Hk.
Qed.

(** X7: An ordinary object all of whose own properties are accessors with a
    getter, and whose [constructor] is the inherited [Object]: the inspection
    ends with any fuel of 2 or more, in either mode, and calls none of the
    getters; the object is walked once and entered in the visited set. *)
Theorem own_getters_never_called (h : Heap) (l : loc) (e : bool) (fuel : nat)
    (inObject collapsed : bool) (st : State) :
  callable (h l) = false -> isArray (h l) = false -> brand (h l) = BObject ->
  getTrap (h l) = None ->
  Forall (fun kd => hasGetter (Some (snd kd)) = true) (own (h l)) ->
  lookupProp "constructor" (own (h l) ++ inherited (h l)) =
    Some (DataDesc (VRef ObjectCtor) e) ->
  exists out,
    inspect h (S (S fuel)) (VRef l) inObject collapsed st =
      Ok out {| visited := {[l]} ∪ visited st; trace := trace st ++ [EWalk l] |}.
Proof.
  intros Hcall Harr Hbrand Htrap Hown Hctor.
  rewrite inspect_S, recursiveInspect_S. unfold inspectBody, recursiveInspectBody.
  unfold is_string, is_nullish, is_error, is_regexp, is_set, is_map, is_strictObject,
    is_loseObject, is_array, is_weak, is_weakset, is_weakmap, hasBrand, is_nullish,
    getOwnPropertyDescriptors, getOwnPropertyNames, walked, Get.
  rewrite Hcall, Harr, Hbrand, Htrap, Hctor. cbn [negb andb orb].
  destruct st as [vis tr].
  destruct (forKeys_getters h (inspect h fuel) (VRef l) false collapsed (own (h l))
              (map fst (own (h l))) Hown (incl_refl _) 0 ""
              {| visited := {[l]} ∪ vis; trace := tr ++ [EWalk l] |}) as [str Hstr].
  eexists.
  unfold bind, weakSetAdd, emit. cbn [visited trace].
  rewrite Hstr. reflexivity.
Qed.

Lemma own_getters_never_called_witness :
  exists out,
    inspect (heapOf [(2%positive,
               literal [("x", AccessorDesc (Some (Throws (Thrown (VNumber 1)))) true);
                        ("y", AccessorDesc (Some (Returns (VString "<b>"))) false)])])
      2 (VRef 2%positive) false true initial =
      Ok out {| visited := {[2%positive]} ∪ ∅; trace := [EWalk 2%positive] |}.
Proof.
  apply (own_getters_never_called _ 2%positive false 0 false true initial);
    try reflexivity.
  repeat constructor.
Defined.

(** ** Logging calls that cannot raise *)

Lemma formatString_plain_template (h : Heap) (fuel : nat) (collapsed : bool)
    (template : string) (args : list Value) (st : State) :
  countPlaceholders template = 0 ->
  _formatString h fuel collapsed (VString template :: args) st =
    (do parts <- mapM (inspectParam h fuel collapsed) (VString (dropPercent template) :: args);
     ret (join " " parts)) st.
Proof.
  intros Hcount. unfold _formatString. cbn [nth].
  unfold bind at 1. unfold bind at 1.
  rewrite templateLoop_no_placeholder by (exact Hcount || discriminate).
  reflexivity.
Qed.

Lemma formatString_plain_no_raise (h : Heap) (fuel : nat) (collapsed : bool)
    (data : list Value) (st : State) :
  is_string (nth 0 data VUndefined) = false \/
  (exists template rest, data = VString template :: rest /\ countPlaceholders template = 0) ->
  raises (_formatString h fuel collapsed data st) = false.
Proof.
  intros [Hfirst|(template & rest & -> & Hcount)].
  - now apply formatString_isolates_faults.
  - rewrite formatString_plain_template by exact Hcount.
    unfold bind.
    pose proof (mapM_inspectParam_no_raise h fuel collapsed
                  (VString (dropPercent template) :: rest) st) as Hm.
    destruct (mapM (inspectParam h fuel collapsed) (VString (dropPercent template) :: rest) st);
      try discriminate; reflexivity.
Qed.

Lemma add_no_raise (h : Heap) (fuel : nat) (data : list Value) (st : State)
    (k : string -> EmbeddedConsole) :
  raises (_formatString h fuel true data st) = false ->
  raises ((do html <- _formatString h fuel true data; ret (k html)) st) = false.
Proof.
  unfold bind. destruct (_formatString h fuel true data st); try discriminate; reflexivity.
Qed.

(** X11: [log], [warn] and [error] raise nothing when the first argument is not a
    string, or is a string without placeholder: every fault of an argument is
    then caught at that argument, whatever the arguments are. *)
Theorem logging_never_raises (h : Heap) (fuel : nat) (data : list Value)
    (c : EmbeddedConsole) (st : State) :
  is_string (nth 0 data VUndefined) = false \/
  (exists template rest, data = VString template :: rest /\ countPlaceholders template = 0) ->
  raises (log h fuel data c st) = false /\
  raises (warn h fuel data c st) = false /\
  raises (error h fuel data c st) = false.
Proof.
  intros Hdata.
  pose proof (formatString_plain_no_raise h fuel true data st Hdata) as Hfmt.
  unfold log, warn, error. repeat split; now apply add_no_raise.
Qed.

Lemma logging_never_raises_witness :
  raises (log proxyHeap 3 [VRef 2%positive; VSymbol "s"] emptyConsole initial) = false /\
  raises (log proxyHeap 3 [VString "50% of"; VRef 2%positive] emptyConsole initial) = false.
Proof.
  split.
  - apply (logging_never_raises proxyHeap 3 [VRef 2%positive; VSymbol "s"] emptyConsole
             initial). left. reflexivity.
  - apply (logging_never_raises proxyHeap 3 [VString "50% of"; VRef 2%positive]
             emptyConsole initial).
    right. exists "50% of", [VRef 2%positive]. split; reflexivity.
Defined.



(** ** Timers and entries *)

(** X13: Timers of different labels do not interfere: starting or ending the
    timer of one label leaves the timer of any other label as it was. *)
Theorem timers_independent (h : Heap) (fuel : nat) (now : Z) (label other : string)
    (c : EmbeddedConsole) (st : State) :
  label <> other ->
  timers (time now (Some label) c) !! other = timers c !! other /\
  (forall c' st', timeEnd h fuel now (Some label) c st = Ok c' st' ->
                  timers c' !! other = timers c !! other).
Proof.
  intros Hne. split.
  - cbn. now rewrite lookup_insert_ne.
  - intros c' st' H. unfold timeEnd in H. cbn [orDefault] in H.
    destruct (timers c !! label) as [p|].
    + unfold log in H.
      apply bind_inv in H as (c1 & s1 & Hlog & Hret).
      apply bind_inv in Hlog as (html & s2 & _ & Hadd).
      injection Hadd as <- _. injection Hret as <- _.
      cbn. now rewrite lookup_delete_ne.
    + unfold warn in H.
      apply bind_inv in H as (html & s2 & _ & Hadd).
      injection Hadd as <- _. reflexivity.
Qed.

Lemma timers_independent_witness :
  timers (time 7 (Some "a") (time 3 (Some "b") emptyConsole)) !! "b" = Some 3%Z.
Proof.
  destruct (timers_independent (heapOf []) 1 7 "a" "b" (time 3 (Some "b") emptyConsole)
              initial) as [H _]; [discriminate|].
  rewrite H. reflexivity.
Defined.

(** X14: [clear] removes the entries and keeps the timers: a timer started before
    [clear] is ended after it as usual, and its entry is then the only one. *)
Theorem clear_keeps_timers (h : Heap) (fuel : nat) (t0 t1 : Z) (label : string)
    (c : EmbeddedConsole) (st : State) :
  entries (clear c) = [] /\ timers (clear c) = timers c /\
  timeEnd h (S fuel) t1 (Some label) (clear (time t0 (Some label) c)) st =
    Ok {| timers := delete label (<[label := t0]> (timers c));
          entries := [elapsedEntry label (t1 - t0)] |} (fresh st).
Proof.
  split; [reflexivity|]. split; [reflexivity|].
  rewrite (timeEnd_running h fuel t1 t0 label); [reflexivity|].
  cbn. apply lookup_insert_eq.
Qed.

(** ** [getContextLine] *)

Lemma has_char_dropUnits (c : ascii) (n : nat) (s : string) :
  has_char c s = false -> has_char c (dropUnits n s) = false.
Proof.
  revert s. induction n as [|n IH]; intros s Hs; [exact Hs|].
  destruct s as [|x s]; [reflexivity|].
  cbn [has_char] in Hs. apply orb_false_iff in Hs as [_ Hs].
  cbn [dropUnits]. now apply IH.
Qed.

Lemma has_char_substring (c : ascii) (a b : nat) (s : string) :
  has_char c s = false -> has_char c (String.substring a b s) = false.
Proof.
  revert a b. induction s as [|x s IH]; intros a b Hs.
  - destruct a, b; reflexivity.
  - cbn [has_char] in Hs. apply orb_false_iff in Hs as [Hx Hs].
    destruct a as [|a]; [destruct b as [|b]|]; cbn [String.substring].
    + reflexivity.
    + cbn [has_char]. rewrite Hx. now apply IH.
    + now apply IH.
Qed.

Lemma has_char_replace (c : ascii) (s pattern replacement : string) :
  has_char c s = false -> has_char c replacement = false ->
  has_char c (replace s pattern replacement) = false.
Proof.
  intros Hs Hr. induction s as [|x s IH].
  - cbn [replace]. destruct (startsWith pattern ""); [|reflexivity].
    rewrite has_char_app, Hr. now rewrite has_char_dropUnits.
  - cbn [replace]. destruct (startsWith pattern (String x s)).
    + rewrite has_char_app, Hr. now rewrite has_char_dropUnits.
    + cbn [has_char] in *. apply orb_false_iff in Hs as [Hx Hs].
      rewrite Hx. now apply IH.
Qed.

(** What follows the last occurrence of a unit has the unit no more. *)
Lemma stringLastIndexOf_unit (c : ascii) (s : string) :
  ((stringLastIndexOf s (String c "") < 0)%Z -> has_char c s = false) /\
  ((0 <= stringLastIndexOf s (String c ""))%Z ->
   (stringLastIndexOf s (String c "") < Z.of_nat (String.length s))%Z /\
   has_char c (dropUnits (S (Z.to_nat (stringLastIndexOf s (String c "")))) s) = false).
Proof.
  induction s as [|x s [IHneg IHpos]].
  - cbn. split; [reflexivity | lia].
  - cbn [stringLastIndexOf].
    destruct (Z.leb_spec 0 (stringLastIndexOf s (String c ""))) as [Hr|Hr].
    + split; [lia|]. intros _. destruct (IHpos Hr) as [Hlt Hdrop].
      split; [cbn [String.length]; lia|].
      rewrite Z2Nat.inj_add by lia. rewrite Nat.add_1_r.
      cbn [dropUnits]. exact Hdrop.
    + specialize (IHneg Hr). cbn [startsWith]. rewrite andb_true_r.
      destruct (Ascii.eqb c x) eqn:Ex.
      * split; [lia|]. intros _. split; [cbn [String.length]; lia|].
        cbn [Z.to_nat dropUnits]. exact IHneg.
      * split; [|lia]. intros _. cbn [has_char]. now rewrite Ex.
Qed.

Lemma clampIndex_inside (len : nat) (i : Z) :
  (0 <= i <= Z.of_nat len)%Z -> clampIndex len i = Z.to_nat i.
Proof.
  intros Hi. unfold clampIndex.
  destruct (Z.ltb_spec i 0); [lia|]. apply Nat.min_l. lia.
Qed.

(** X15: The annotation [getContextLine] returns is a bare name: whatever the
    stack and the method, there is no slash in it. *)
Theorem getContextLine_no_slash (stack : option string) (fn : string) :
  has_char "/" (getContextLine stack fn) = false.
Proof.
  unfold getContextLine.
  destruct stack as [stack|]; [|reflexivity].
  destruct (nth_error _ _) as [line|]; [|reflexivity].
  set (fnCtx := substr line 7).
  set (fullCtx := stringSlice fnCtx _ _).
  apply has_char_replace; [|reflexivity].
  apply has_char_substring.
  destruct (stringLastIndexOf_unit "/" fullCtx) as [Hneg Hpos].
  destruct (Z.leb_spec 0 (stringLastIndexOf fullCtx "/")) as [Hr|Hr].
  - destruct (Hpos Hr) as [Hlt Hdrop].
    unfold substr. rewrite clampIndex_inside by lia.
    rewrite Z2Nat.inj_add by lia. rewrite Nat.add_1_r. exact Hdrop.
  - now apply Hneg.
Qed.

Lemma dropUnits_app (a b : string) : dropUnits (String.length a) (a +:+ b) = b.
Proof. induction a as [|x a IH]; [reflexivity|]. rewrite append_cons. exact IH. Qed.

Lemma substr_app (a b : string) : substr (a +:+ b) (Z.of_nat (String.length a)) = b.
Proof.
  unfold substr. rewrite clampIndex_inside by (rewrite length_append; lia).
  rewrite Nat2Z.id. apply dropUnits_app.
Qed.

Lemma substring_prefix (a b : string) :
  String.substring 0 (String.length a) (a +:+ b) = a.
Proof.
  induction a as [|x a IH]; [destruct b; reflexivity|].
  rewrite append_cons. cbn [String.length String.substring]. now rewrite IH.
Qed.

Lemma substring_app (a b c : string) :
  String.substring (String.length a) (String.length b) (a +:+ b +:+ c) = b.
Proof.
  induction a as [|x a IH]; [rewrite append_nil_l; apply substring_prefix|].
  rewrite append_cons. exact IH.
Qed.

Lemma stringIndexOf_unit (c : ascii) (a b : string) :
  has_char c a = false ->
  stringIndexOf (a +:+ String c b) (String c "") = Z.of_nat (String.length a).
Proof.
  induction a as [|x a IH]; intros Ha.
  - rewrite append_nil_l. destruct b; cbn [stringIndexOf startsWith];
      rewrite Ascii.eqb_refl; reflexivity.
  - cbn [has_char] in Ha. apply orb_false_iff in Ha as [Hx Ha].
    rewrite append_cons. cbn [stringIndexOf startsWith]. rewrite Hx. cbn [andb].
    rewrite (IH Ha). destruct (Z.ltb_spec (Z.of_nat (String.length a)) 0); [lia|].
    cbn [String.length]. lia.
Qed.

Lemma stringLastIndexOf_absent (c : ascii) (s : string) :
  has_char c s = false -> stringLastIndexOf s (String c "") = (-1)%Z.
Proof.
  induction s as [|x s IH]; intros Hs; [reflexivity|].
  cbn [has_char] in Hs. apply orb_false_iff in Hs as [Hx Hs].
  cbn [stringLastIndexOf startsWith]. rewrite (IH Hs), Hx. reflexivity.
Qed.

Lemma stringLastIndexOf_last (c : ascii) (a tail : string) :
  has_char c tail = false ->
  stringLastIndexOf (a +:+ String c tail) (String c "") = Z.of_nat (String.length a).
Proof.
  intros Ht. induction a as [|x a IH].
  - cbn [String.append stringLastIndexOf startsWith].
    change ("" +:+ String c tail) with (String c tail).
    cbn [stringLastIndexOf startsWith].
    rewrite (stringLastIndexOf_absent c tail Ht), Ascii.eqb_refl. reflexivity.
  - rewrite append_cons. cbn [stringLastIndexOf]. rewrite IH.
    destruct (Z.leb_spec 0 (Z.of_nat (String.length a))); [|lia].
    cbn [String.length]. lia.
Qed.

Lemma replace_absent (s pattern replacement : string) :
  occurs pattern s = false -> replace s pattern replacement = s.
Proof.
  induction s as [|x s IH]; intros Ho.
  - cbn [occurs] in Ho. apply orb_false_iff in Ho as [Hp _].
    cbn [replace]. now rewrite Hp.
  - cbn [occurs] in Ho. apply orb_false_iff in Ho as [Hp Ho].
    cbn [replace]. rewrite Hp. now rewrite IH.
Qed.

Lemma arrayFindIndex_first {A} (p : A -> bool) (pre : list A) (m : A) (post : list A) :
  forallb (fun x => negb (p x)) pre = true -> p m = true ->
  arrayFindIndex p (pre ++ m :: post) = Z.of_nat (length pre).
Proof.
  intros Hpre Hm. induction pre as [|x pre IH].
  - cbn. now rewrite Hm.
  - cbn [forallb] in Hpre. apply andb_true_iff in Hpre as [Hx Hpre].
    apply negb_true_iff in Hx.
    change ((x :: pre) ++ m :: post)%list with (x :: (pre ++ m :: post))%list.
    cbn [arrayFindIndex]. rewrite Hx, (IH Hpre).
    destruct (Z.ltb_spec (Z.of_nat (length pre)) 0); [lia|].
    cbn [length]. lia.
Qed.

Lemma nth_error_after {A} (pre : list A) (m x : A) (post : list A) :
  nth_error (pre ++ m :: x :: post) (S (length pre)) = Some x.
Proof. induction pre as [|y pre IH]; [reflexivity | exact IH]. Qed.

(** X16: For a stack in which the frame after the first line that names the
    method has the usual form (seven units of indentation, a caller name, and
    in brackets a path, a file name, a line and a column), the annotation is
    the file name and the line: path and column are cut off. *)
Theorem getContextLine_frame (stack fn : string) (pre post : list string)
    (m indent name dir file ln col : string) :
  stringSplit stack newline =
    (pre ++ m ::
     (indent +:+ name +:+ " (" +:+ dir +:+ "/" +:+ file +:+ ":" +:+ ln +:+ ":" +:+ col +:+ ")")
     :: post)%list ->
  forallb (fun x => negb (stringIncludes x (fn +:+ " ("))) pre = true ->
  stringIncludes m (fn +:+ " (") = true ->
  String.length indent = 7 ->
  has_char "(" name = false ->
  has_char "/" (file +:+ ":" +:+ ln +:+ ":" +:+ col) = false ->
  has_char ":" col = false ->
  occurs "<anonymous>" (file +:+ ":" +:+ ln) = false ->
  getContextLine (Some stack) fn = file +:+ ":" +:+ ln.
Proof.
  intros Hsplit Hpre Hm Hindent Hname Hslash Hcol Hanon.
  unfold getContextLine. rewrite Hsplit.
  rewrite (arrayFindIndex_first _ pre m _ Hpre Hm).
  replace (Z.to_nat (Z.of_nat (length pre) + 1)) with (S (length pre)) by lia.
  rewrite nth_error_after.
  set (tail := file +:+ ":" +:+ ln +:+ ":" +:+ col) in Hslash.
  set (full := dir +:+ String "/" tail).
  replace (indent +:+ name +:+ " (" +:+ dir +:+ "/" +:+ file +:+ ":" +:+ ln +:+ ":" +:+
           col +:+ ")")
    with (indent +:+ ((name +:+ " ") +:+ String "(" (full +:+ ")")))
    by (unfold full, tail;
        repeat (rewrite append_assoc || rewrite append_cons || rewrite append_nil_l);
        reflexivity).
  (* fnCtx *)
  change 7%Z with (Z.of_nat 7). rewrite <- Hindent, substr_app.
  (* charIdx *)
  rewrite stringIndexOf_unit
    by (rewrite has_char_app, Hname; reflexivity).
  destruct (Z.leb_spec 0 (Z.of_nat (String.length (name +:+ " ")))); [|lia].
  (* fullCtx *)
  assert (Hfull :
    stringSlice ((name +:+ " ") +:+ String "(" (full +:+ ")"))
      (Z.of_nat (String.length (name +:+ " ")) + 1) (-1) = full).
  { unfold stringSlice.
    replace ((name +:+ " ") +:+ String "(" (full +:+ ")"))
      with (((name +:+ " ") +:+ "(") +:+ full +:+ ")")
      by now rewrite !append_assoc.
    set (a := (name +:+ " ") +:+ "(").
    assert (Ha : String.length a = S (String.length (name +:+ " "))).
    { unfold a. rewrite length_append. simpl. lia. }
    assert (Hlen : String.length (a +:+ full +:+ ")")
                   = String.length a + String.length full + 1).
    { rewrite !length_append. simpl. lia. }
    rewrite Hlen.
    rewrite clampIndex_inside by lia.
    unfold clampIndex at 1. cbn [Z.ltb Z.compare].
    replace (Z.to_nat (Z.of_nat (String.length (name +:+ " ")) + 1)) with (String.length a)
      by lia.
    replace (Z.to_nat (Z.max (Z.of_nat (String.length a + String.length full + 1) + -1) 0)
             - String.length a) with (String.length full) by lia.
    apply substring_app. }
  rewrite Hfull.
  (* shortenedCtx *)
  unfold full.
  rewrite (stringLastIndexOf_last "/" dir tail Hslash).
  destruct (Z.leb_spec 0 (Z.of_nat (String.length dir))); [|lia].
  replace (dir +:+ String "/" tail) with ((dir +:+ "/") +:+ tail)
    by now rewrite append_assoc.
  replace (Z.of_nat (String.length dir) + 1)%Z with (Z.of_nat (String.length (dir +:+ "/")))
    by (rewrite length_append; simpl; lia).
  rewrite substr_app.
  (* the last colon *)
  unfold tail.
  replace (file +:+ ":" +:+ ln +:+ ":" +:+ col)
    with ((file +:+ ":" +:+ ln) +:+ String ":" col) by now rewrite !append_assoc.
  rewrite (stringLastIndexOf_last ":" (file +:+ ":" +:+ ln) col Hcol).
  unfold stringSlice.
  rewrite !clampIndex_inside by (rewrite ?length_append; simpl; lia).
  rewrite Nat2Z.id. cbn [Z.to_nat]. rewrite Nat.sub_0_r.
  rewrite substring_prefix.
  now apply replace_absent.
Qed.

Lemma getContextLine_frame_witness : getContextLine (Some chromeStack) "log" = "app.js:12".
Proof.
  apply (getContextLine_frame chromeStack "log"
           ["Error";
            "    at getContextLine (http://localhost:3000/console.js:117:50)";
            "    at EmbeddedConsole._add (http://localhost:3000/console.js:455:24)"]
           ["    at <anonymous>:1:1"]
           "    at EmbeddedConsole.log (http://localhost:3000/console.js:507:47)"
           "    at " "main" "http://localhost:3000/static/js" "app.js" "12" "5");
    reflexivity.
Defined.

(** ** The search of the click handler *)

Section Click.

Context {node : Type}.
Variable parentElement : node -> option node.
Variable logs : node -> option (list Value).

Lemma searchLoop_reaches (k : nat) :
  forall (n : nat) (e x : node),
    k <= n ->
    ancestor parentElement k e = Some x ->
    (k < n -> logs x <> None) ->
    (forall j y, j < k -> ancestor parentElement j e = Some y -> logs y = None) ->
    searchLoop parentElement logs n (Some e) = LoopLeft (Some x).
Proof.
  induction k as [|k IH]; intros n e x Hkn Hanc Hx Hbelow.
  - cbn in Hanc. injection Hanc as <-.
    destruct n as [|n]; [reflexivity|].
    cbn [searchLoop]. destruct (logs e) eqn:El; [reflexivity|].
    exfalso. apply Hx; [lia | reflexivity].
  - destruct n as [|n]; [lia|].
    cbn [searchLoop].
    rewrite (Hbelow 0 e) by (lia || reflexivity).
    cbn [ancestor] in Hanc.
    destruct (parentElement e) as [p|] eqn:Ep; [|discriminate].
    apply IH; [lia | exact Hanc | intros; apply Hx; lia |].
    intros j y Hj Hy. apply (Hbelow (S j) y); [lia|].
    cbn [ancestor]. now rewrite Ep.
Qed.

Lemma searchLoop_nothing (n : nat) :
  forall e : node,
    (forall j y, j <= n -> ancestor parentElement j e = Some y -> logs y = None) ->
    match searchLoop parentElement logs n (Some e) with
    | Returned => True
    | LoopLeft None => True
    | LoopLeft (Some x) => logs x = None
    end.
Proof.
  induction n as [|n IH]; intros e Hall.
  - cbn. apply (Hall 0 e); [lia | reflexivity].
  - cbn [searchLoop]. rewrite (Hall 0 e) by (lia || reflexivity).
    destruct (parentElement e) as [p|] eqn:Ep.
    + apply IH. intros j y Hj Hy. apply (Hall (S j) y); [lia|].
      cbn [ancestor]. now rewrite Ep.
    + destruct n; exact I.
Qed.

(** X17: A click finds the arguments of the nearest element known to [logs] among
    the target and its ancestors up to the sixth; when none of these seven
    elements is known, it finds nothing, however many known elements there
    are above them. *)
Theorem click_search_depth (target : node) :
  (forall k x data,
     k <= 6 ->
     ancestor parentElement k target = Some x ->
     logs x = Some data ->
     (forall j y, j < k -> ancestor parentElement j target = Some y -> logs y = None) ->
     clickedData parentElement logs target = Some data) /\
  ((forall j y, j <= 6 -> ancestor parentElement j target = Some y -> logs y = None) ->
   clickedData parentElement logs target = None).
Proof.
  split.
  - intros k x data Hk Hanc Hx Hbelow. unfold clickedData.
    rewrite (searchLoop_reaches k 6 target x Hk Hanc); [exact Hx | congruence | exact Hbelow].
  - intros Hall. unfold clickedData.
    pose proof (searchLoop_nothing 6 target Hall) as H.
    destruct (searchLoop parentElement logs 6 (Some target)) as [|[x|]]; auto.
Qed.

End Click.

Lemma click_search_depth_witness :
  clickedData (fun n : nat => if (n <? 10)%nat then Some (S n) else None)
    (fun n : nat => if (n =? 6)%nat then Some [VString "x"] else None) 0 =
    Some [VString "x"] /\
  clickedData (fun n : nat => if (n <? 10)%nat then Some (S n) else None)
    (fun n : nat => if (n =? 7)%nat then Some [VString "x"] else None) 0 = None.
Proof.
  split.
  - apply (proj1 (click_search_depth
                    (fun n : nat => if (n <? 10)%nat then Some (S n) else None)
                    (fun n : nat => if (n =? 6)%nat then Some [VString "x"] else None) 0)
             6 6 [VString "x"]); try reflexivity.
    intros j y Hj Hy.
    do 6 (destruct j as [|j]; [cbn in Hy; injection Hy as <-; reflexivity|]). lia.
  - apply (proj2 (click_search_depth
                    (fun n : nat => if (n <? 10)%nat then Some (S n) else None)
                    (fun n : nat => if (n =? 7)%nat then Some [VString "x"] else None) 0)).
    intros j y Hj Hy.
    do 7 (destruct j as [|j]; [cbn in Hy; injection Hy as <-; reflexivity|]). lia.
Defined.

(** ** Objects are entered in the visited set before they are walked *)

Lemma keptBy_same {A} (s : State) (a : A) : walkedAreVisited s -> keptBy s (Ok a s).
Proof. intros Hs. split; [exact Hs | set_solver]. Qed.

Lemma keptBy_same_raise {A} (s : State) (e : Exn) :
  walkedAreVisited s -> keptBy s (@Raise A e s).
Proof. intros Hs. split; [exact Hs | set_solver]. Qed.

Lemma Keeps_ret {A} (a : A) : Keeps (ret a).
Proof. intros s Hs. now apply keptBy_same. Qed.

Lemma Keeps_throw {A} (e : Exn) : Keeps (@throw A e).
Proof. intros s Hs. now apply keptBy_same_raise. Qed.

Lemma Keeps_lift {A} (o : Outcome A) : Keeps (lift o).
Proof. destruct o; [apply Keeps_ret | apply Keeps_throw]. Qed.

Lemma Keeps_bind {A B} (m : M A) (f : A -> M B) :
  Keeps m -> (forall a, Keeps (f a)) -> Keeps (bind m f).
Proof.
  intros Hm Hf s Hs. unfold bind. specialize (Hm s Hs).
  destruct (m s) as [a s1|e s1|]; [|exact Hm|exact I].
  destruct Hm as [Hs1 Hsub]. specialize (Hf a s1 Hs1).
  destruct (f a s1) as [b s2|e s2|]; [| |exact I];
    (destruct Hf as [Hs2 Hsub2]; split; [exact Hs2 | set_solver]).
Qed.

Lemma Keeps_once {A} (v : Value) (m : M A) : Keeps m -> KeepsOnce v m.
Proof. intros Hm s Hs _. now apply Hm. Qed.

Lemma KeepsOnce_bind {A B} (v : Value) (m : M A) (f : A -> M B) :
  KeepsOnce v m -> (forall a, KeepsOnce v (f a)) -> KeepsOnce v (bind m f).
Proof.
  intros Hm Hf s Hs Hv. unfold bind. specialize (Hm s Hs Hv).
  destruct (m s) as [a s1|e s1|]; [|exact Hm|exact I].
  destruct Hm as [Hs1 Hsub].
  assert (Hv1 : forall l, v = VRef l -> l ∈ visited s1) by (intros l El; set_solver).
  specialize (Hf a s1 Hs1 Hv1).
  destruct (f a s1) as [b s2|e s2|]; [| |exact I];
    (destruct Hf as [Hs2 Hsub2]; split; [exact Hs2 | set_solver]).
Qed.

Lemma Keeps_getter (l : loc) (key : string) : Keeps (emit (EGetter l key)).
Proof.
  intros s Hs. split; [|set_solver].
  intros l' Hin. cbn [trace visited] in *. apply in_app_or in Hin as [Hin|Hin].
  - now apply Hs.
  - destruct Hin as [Heq|[]]. discriminate Heq.
Qed.

Lemma KeepsOnce_walked (v : Value) : KeepsOnce v (walked v).
Proof.
  destruct v; try (apply Keeps_once, Keeps_ret).
  intros s Hs Hv. split; [|set_solver].
  intros l' Hin. cbn [trace visited] in *. apply in_app_or in Hin as [Hin|Hin].
  - now apply Hs.
  - destruct Hin as [Heq|[]]. injection Heq as <-. now apply Hv.
Qed.

Lemma Keeps_weakSetHas (v : Value) : Keeps (weakSetHas v).
Proof. intros s Hs. unfold weakSetHas. destruct v; now apply keptBy_same. Qed.

Lemma Keeps_weakSetAdd (v : Value) : Keeps (weakSetAdd v).
Proof.
  intros s Hs. unfold weakSetAdd.
  destruct v; try now apply keptBy_same_raise.
  split; [|cbn; set_solver].
  intros l' Hin. cbn [trace visited] in *. specialize (Hs l' Hin). set_solver.
Qed.

(** [visited.add(value)] and then a computation that needs [value] visited. *)
Lemma Keeps_add_then {A} (v : Value) (m : M A) :
  KeepsOnce v m -> Keeps (bind (weakSetAdd v) (fun _ => m)).
Proof.
  intros Hm s Hs. unfold bind.
  pose proof (Keeps_weakSetAdd v s Hs) as Hadd.
  destruct (weakSetAdd v s) as [[] s1|e s1|] eqn:E; [|exact Hadd|exact I].
  destruct Hadd as [Hs1 Hsub].
  assert (Hv : forall l, v = VRef l -> l ∈ visited s1).
  { intros l ->. unfold weakSetAdd in E. injection E as <-. cbn. set_solver. }
  specialize (Hm s1 Hs1 Hv).
  destruct (m s1) as [b s2|e s2|]; [| |exact I];
    (destruct Hm as [Hs2 Hsub2]; split; [exact Hs2 | set_solver]).
Qed.

Lemma Keeps_Get (h : Heap) (v : Value) (key : string) : Keeps (Get h v key).
Proof.
  unfold Get. destruct v; try apply Keeps_ret; try apply Keeps_throw.
  destruct (getTrap (h l)); [apply Keeps_throw|].
  destruct (lookupProp key _) as [[x e|[g|] e]|]; try apply Keeps_ret.
  apply Keeps_bind; [apply Keeps_getter | intros _; apply Keeps_lift].
Qed.

Lemma Keeps_objectToString (h : Heap) (l : loc) (sel : Obj -> Outcome string) :
  Keeps (objectToString h l sel).
Proof.
  unfold objectToString. destruct (getTrap (h l)); [apply Keeps_throw | apply Keeps_lift].
Qed.

Lemma Keeps_ToString (h : Heap) (v : Value) : Keeps (ToString h v).
Proof.
  destruct v as [| |[]| | | | |]; cbn [ToString];
    try apply Keeps_ret; try apply Keeps_throw.
  apply Keeps_objectToString.
Qed.

Lemma Keeps_nativeString (h : Heap) (v : Value) : Keeps (nativeString h v).
Proof.
  destruct v; cbn [nativeString]; try apply Keeps_ToString. apply Keeps_ret.
Qed.

Lemma Keeps_concat (h : Heap) (str : string) (v : Value) : Keeps (concat h str v).
Proof.
  destruct v; cbn [concat];
    (apply Keeps_bind;
     [first [apply Keeps_ToString | apply Keeps_objectToString] | intros; apply Keeps_ret]).
Qed.

Lemma Keeps_escapeHtml (h : Heap) (v : Value) : Keeps (escapeHtml h v).
Proof.
  unfold escapeHtml. apply Keeps_bind; [|intros; apply Keeps_ret].
  destruct v; try apply Keeps_nativeString. apply Keeps_ret.
Qed.

Lemma Keeps_wrapInSpan (h : Heap) (className : string) (v : Value) (doEscape : bool) :
  Keeps (wrapInSpan h className v doEscape).
Proof.
  unfold wrapInSpan. apply Keeps_bind; [|intros; apply Keeps_ret].
  destruct doEscape; [apply Keeps_escapeHtml | apply Keeps_ToString].
Qed.

Lemma Keeps_keysOf (h : Heap) (v : Value) : Keeps (keysOf h v).
Proof.
  unfold keysOf. destruct v; try apply Keeps_throw.
  destruct (getTrap (h l)); [apply Keeps_throw | apply Keeps_lift].
Qed.

Lemma Keeps_entriesOf (h : Heap) (v : Value) : Keeps (entriesOf h v).
Proof.
  unfold entriesOf. destruct v; try apply Keeps_throw.
  destruct (getTrap (h l)); [apply Keeps_throw | apply Keeps_lift].
Qed.

Lemma Keeps_mapM {A B} (f : A -> M B) (l : list A) :
  (forall a, Keeps (f a)) -> Keeps (mapM f l).
Proof.
  intros Hf. induction l as [|a l IH]; [apply Keeps_ret|].
  cbn [mapM]. apply Keeps_bind; [apply Hf|]. intros b.
  apply Keeps_bind; [exact IH | intros; apply Keeps_ret].
Qed.

Section Visited.

Variable h : Heap.
Variable insp recur : Value -> bool -> bool -> M string.
Hypothesis insp_keeps : forall v i c, Keeps (insp v i c).
Hypothesis recur_keeps : forall v i c, KeepsOnce v (recur v i c).

Lemma forKeys_keeps (obj : Value) (isArr collapsed : bool)
    (descriptors : list (string * Descriptor)) (keys : list string) :
  forall (count : nat) (str : string),
    Keeps (forKeys h insp obj isArr collapsed descriptors keys count str).
Proof.
  induction keys as [|key rest IH]; intros count str; [apply Keeps_ret|].
  cbn [forKeys].
  destruct (collapsed && (MAX_COLLAPSED_PROPERTIES <=? S count)%nat); [apply Keeps_ret|].
  apply Keeps_bind; [|intros result; apply IH].
  destruct (hasGetter (lookupProp key descriptors)); [apply Keeps_ret|].
  apply Keeps_bind; [apply Keeps_Get|]. intros value.
  apply Keeps_bind; [apply Keeps_weakSetHas|]. intros seen.
  destruct seen; [apply Keeps_ret|].
  apply Keeps_bind; [|intros _; apply insp_keeps].
  destruct (is_loseObject h value); [apply Keeps_weakSetAdd | apply Keeps_ret].
Qed.

Lemma recursiveInspectBody_keeps (obj : Value) (inObject collapsed : bool) :
  KeepsOnce obj (recursiveInspectBody h insp obj inObject collapsed).
Proof.
  unfold recursiveInspectBody.
  destruct (negb (is_loseObject h obj)); [apply Keeps_once, insp_keeps|].
  apply KeepsOnce_bind; [apply KeepsOnce_walked|]. intros _.
  apply Keeps_once. apply Keeps_bind; [apply forKeys_keeps | intros; apply Keeps_ret].
Qed.

Lemma inspectBody_keeps (value : Value) (inObject collapsed : bool) :
  Keeps (inspectBody h insp recur value inObject collapsed).
Proof.
  unfold inspectBody.
  destruct (is_string value); [destruct inObject; apply Keeps_wrapInSpan|].
  destruct (is_nullish value); [apply Keeps_wrapInSpan|].
  destruct (is_error h value).
  { apply Keeps_bind; [apply Keeps_Get | intros; apply Keeps_wrapInSpan]. }
  destruct (is_regexp h value); [apply Keeps_wrapInSpan|].
  destruct (is_set h value).
  { apply Keeps_bind; [apply Keeps_Get|]. intros size.
    apply Keeps_bind; [apply insp_keeps|]. intros inspectedSize.
    apply Keeps_bind; [apply Keeps_keysOf|]. intros keys.
    apply Keeps_bind; [apply Keeps_mapM; intros; apply insp_keeps|].
    intros parts. apply Keeps_wrapInSpan. }
  destruct (is_map h value).
  { apply Keeps_bind; [apply Keeps_Get|]. intros size.
    apply Keeps_bind; [apply insp_keeps|]. intros inspectedSize.
    apply Keeps_bind; [apply Keeps_entriesOf|]. intros entries.
    apply Keeps_bind.
    { apply Keeps_mapM. intros kv.
      apply Keeps_bind; [apply insp_keeps|]. intros k.
      apply Keeps_bind; [apply insp_keeps | intros; apply Keeps_ret]. }
    intros parts. apply Keeps_wrapInSpan. }
  destruct (is_strictObject h value).
  { apply Keeps_bind.
    { destruct (is_weak h value); [apply Keeps_escapeHtml|].
      apply Keeps_add_then, recur_keeps. }
    intros result. apply Keeps_bind; [apply Keeps_Get|]. intros valueConstructor.
    apply Keeps_bind; [|intros; apply Keeps_wrapInSpan].
    destruct (truthy valueConstructor && negb (isObjectCtor valueConstructor));
      [|apply Keeps_ret].
    apply Keeps_bind; [apply Keeps_Get|]. intros name.
    apply Keeps_bind; [apply insp_keeps | intros; apply Keeps_ret]. }
  destruct (is_array h value).
  { apply Keeps_bind; [apply Keeps_add_then, recur_keeps|].
    intros result. apply Keeps_bind; [apply Keeps_Get|]. intros len.
    apply Keeps_bind; [|intros; apply Keeps_wrapInSpan].
    destruct (atLeast2 len); [|apply Keeps_ret].
    apply Keeps_bind; [apply insp_keeps | intros; apply Keeps_ret]. }
  destruct (is_function h value).
  { apply Keeps_bind; [apply Keeps_Get|]. intros name.
    destruct (truthy name); [|apply Keeps_wrapInSpan].
    apply Keeps_bind; [apply Keeps_nativeString|]. intros val.
    apply Keeps_bind.
    { destruct inObject; [|apply Keeps_ret].
      apply Keeps_bind; [apply Keeps_ToString | intros; apply Keeps_ret]. }
    intros val'.
    apply Keeps_bind; [apply Keeps_wrapInSpan | intros; apply Keeps_ret]. }
  destruct (is_number value || is_bool value); [apply Keeps_wrapInSpan|].
  destruct (is_bigint value).
  { apply Keeps_bind; [apply Keeps_concat | intros; apply Keeps_wrapInSpan]. }
  apply Keeps_wrapInSpan.
Qed.

End Visited.

Lemma inspect_keeps (h : Heap) (fuel : nat) :
  (forall v i c, Keeps (inspect h fuel v i c)) /\
  (forall v i c, KeepsOnce v (recursiveInspect h fuel v i c)).
Proof.
  induction fuel as [|fuel [IHi IHr]].
  - split; intros v i c s Hs; intros; exact I.
  - split; intros v i c.
    + rewrite inspect_S. apply inspectBody_keeps; assumption.
    + rewrite recursiveInspect_S. apply recursiveInspectBody_keeps; assumption.
Qed.

(** X9: Throughout an inspection, on any heap and however it ends (with a
    rendering or with an error), every object whose walk has been entered is
    in the visited set, entered there before the walk began, and nothing is
    ever taken out of the visited set. *)
Theorem walked_objects_are_visited (h : Heap) (fuel : nat) (value : Value)
    (inObject collapsed : bool) (s : State) :
  walkedAreVisited s ->
  match inspect h fuel value inObject collapsed s with
  | Ok _ s' | Raise _ s' => walkedAreVisited s' /\ visited s ⊆ visited s'
  | OutOfFuel => True
  end.
Proof.
  intros Hs. destruct (inspect_keeps h fuel) as [Hi _].
  exact (Hi value inObject collapsed s Hs).
Qed.

Lemma walked_objects_are_visited_witness :
  exists out s',
    inspect setCycleHeap 5 (VRef 2%positive) false true initial = Ok out s' /\
    walkedAreVisited s'.
Proof.
  pose proof (walked_objects_are_visited setCycleHeap 5 (VRef 2%positive) false true initial)
    as H.
  destruct (inspect setCycleHeap 5 (VRef 2%positive) false true initial) as [out s'| |] eqn:E.
  - exists out, s'. split; [reflexivity|]. apply H. intros l [].
  - exfalso. vm_compute in E. discriminate E.
  - exfalso. vm_compute in E. discriminate E.
Defined.

(** ** Escaping twice *)

Lemma escapeChar_plain (c : ascii) :
  Ascii.eqb c "<" = false -> Ascii.eqb c ">" = false -> Ascii.eqb c " " = false ->
  Ascii.eqb c newline = false -> escapeChar c = String c "".
Proof. intros H1 H2 H3 H4. unfold escapeChar. now rewrite H1, H2, H3, H4. Qed.

Lemma escapeString_plain (t : string) :
  has_char "<" t = false -> has_char ">" t = false -> has_char " " t = false ->
  has_char newline t = false -> escapeString t = t.
Proof.
  induction t as [|c t IH]; intros H1 H2 H3 H4; [reflexivity|].
  cbn [has_char] in *.
  apply orb_false_iff in H1 as [H1 H1']. apply orb_false_iff in H2 as [H2 H2'].
  apply orb_false_iff in H3 as [H3 H3']. apply orb_false_iff in H4 as [H4 H4'].
  rewrite Ascii.eqb_sym in H1. rewrite Ascii.eqb_sym in H2.
  rewrite Ascii.eqb_sym in H3. rewrite Ascii.eqb_sym in H4.
  rewrite escapeString_cons, escapeChar_plain by assumption.
  rewrite IH by assumption. reflexivity.
Qed.

Lemma escapeString_clean (s : string) :
  has_char newline s = false ->
  has_char "<" (escapeString s) = false /\ has_char ">" (escapeString s) = false /\
  has_char " " (escapeString s) = false /\ has_char newline (escapeString s) = false.
Proof.
  induction s as [|c s IH]; intros Hs; [repeat split; reflexivity|].
  cbn [has_char] in Hs. apply orb_false_iff in Hs as [Hc Hs].
  destruct (IH Hs) as (I1 & I2 & I3 & I4).
  rewrite escapeString_cons, !has_char_app, I1, I2, I3, I4, !orb_false_r.
  unfold escapeChar.
  destruct (Ascii.eqb c "<") eqn:E1; [repeat split; reflexivity|].
  destruct (Ascii.eqb c ">") eqn:E2; [repeat split; reflexivity|].
  destruct (Ascii.eqb c " ") eqn:E3; [repeat split; reflexivity|].
  rewrite Ascii.eqb_sym in Hc. rewrite Hc.
  cbn [has_char]. rewrite !orb_false_r.
  rewrite (Ascii.eqb_sym "<" c), (Ascii.eqb_sym ">" c), (Ascii.eqb_sym " " c),
    (Ascii.eqb_sym newline c), E1, E2, E3, Hc.
  repeat split; reflexivity.
Qed.

Lemma escapeChar_length (c : ascii) : 1 <= String.length (escapeChar c).
Proof.
  unfold escapeChar.
  destruct (Ascii.eqb c "<"); [simpl; lia|].
  destruct (Ascii.eqb c ">"); [simpl; lia|].
  destruct (Ascii.eqb c " "); [simpl; lia|].
  destruct (Ascii.eqb c newline); simpl; lia.
Qed.

(** X2: [escapeHtml] never shortens a text.  The escaped form of a text without
    newline has no angle bracket, space or newline left, and escaping it a
    second time changes nothing: the ampersand is not escaped, so an entity
    written in the text is kept as it is. *)
Theorem escapeString_twice (s : string) :
  String.length s <= String.length (escapeString s) /\
  (has_char newline s = false ->
   has_char "<" (escapeString s) = false /\ has_char ">" (escapeString s) = false /\
   has_char " " (escapeString s) = false /\
   escapeString (escapeString s) = escapeString s).
Proof.
  split.
  - induction s as [|c s IH]; [reflexivity|].
    rewrite escapeString_cons, length_append.
    pose proof (escapeChar_length c). cbn [String.length]. lia.
  - intros Hs. destruct (escapeString_clean s Hs) as (H1 & H2 & H3 & H4).
    repeat split; try assumption.
    now apply escapeString_plain.
Qed.

Lemma escapeString_twice_witness :
  escapeString (escapeString "a < b") = "a&nbsp;&lt;&nbsp;b" /\
  escapeString "a&nbsp;&lt;&nbsp;b" = escapeString "a < b".
Proof.
  destruct (escapeString_twice "a < b") as [_ H].
  destruct (H eq_refl) as (_ & _ & _ & Htwice).
  split; [rewrite Htwice; reflexivity | exact Htwice].
Defined.

(** ** Functions *)

(** X10: A named function is shown as the signature mark and its source text,
    escaped and cut to 100 units, at top level, and as its name followed by
    a pair of brackets inside a composite.  The source text is computed in
    both cases: a function whose conversion to a string throws is a fault
    even where only its name would be shown. *)
Theorem function_rendering (h : Heap) (l : loc) (name : string) (e : bool) (fuel : nat)
    (inObject collapsed : bool) (st : State) :
  callable (h l) = true -> isArray (h l) = false -> brand (h l) = BObject ->
  getTrap (h l) = None ->
  lookupProp "name" (own (h l) ++ inherited (h l)) = Some (DataDesc (VString name) e) ->
  name <> "" ->
  (forall source, toStr (h l) = Returns source ->
     inspect h (S fuel) (VRef l) inObject collapsed st =
       Ok (FUNCTION_SIGNATURE_PREFIX +:+
           span "ec-function"
             (escapeString (trimString (if inObject then name +:+ "()" else source) 100)))
          st) /\
  (forall err, toStr (h l) = Throws err ->
     inspect h (S fuel) (VRef l) inObject collapsed st = Raise err st).
Proof.
  intros Hcall Harr Hbrand Htrap Hname Hne.
  assert (Htruthy : truthy (VString name) = true).
  { cbn [truthy]. destruct (String.eqb_spec name ""); [contradiction | reflexivity]. }
  split; intros x Hx; rewrite inspect_S; unfold inspectBody;
    unfold is_string, is_nullish, is_error, is_regexp, is_set, is_map, is_strictObject,
      is_loseObject, is_array, is_function, hasBrand, Get, nativeString, ToString,
      objectToString;
    rewrite Hcall, Harr, Hbrand, Htrap, Hname; cbn [is_nullish negb andb];
    rewrite bind_ret, Htruthy, Hx; [|reflexivity].
  destruct inObject; reflexivity.
Qed.

Lemma function_rendering_witness :
  inspect (heapOf [(2%positive, ctorObj "f")]) 1 (VRef 2%positive) true true initial =
    Ok (FUNCTION_SIGNATURE_PREFIX +:+
        span "ec-function" (escapeString (trimString ("f" +:+ "()") 100))) initial.
Proof.
  destruct (function_rendering (heapOf [(2%positive, ctorObj "f")]) 2%positive "f" false 0
              true true initial eq_refl eq_refl eq_refl eq_refl eq_refl) as [H _];
    [discriminate|].
  apply (H ("function " +:+ "f" +:+ "() { [native code] }")). reflexivity.
Defined.
